(** * deno-postcss: source input and terminal highlighting

    A shallow embedding of [src/input.js] (class [Input]) and of
    [src/terminal-highlight.js] ([getTokenType], [terminalHighlight]).

    JavaScript strings are sequences of UTF-16 code units, modelled as
    [list N]; numbers that hold line, column and counter values are
    integers.  Thrown exceptions, the module-level counter [sequence] and
    the calls made on the collaborating objects (the source-map consumer,
    the token stream) are explicit: a computation takes the state, and
    returns the calls it made, the value it returned or the exception it
    threw, and the new state.

    The code outside these two files (the tokenizer, the previous map and
    its consumer, [path], [chalk]) enters through the classes [Host],
    [Tokenizer] and [Chalk]; the constructor of [css-syntax-error.js] and
    the notion of colour-control sequence are modelled from the
    specification.  The file has the model first, then reference
    collaborators on which it runs, then the properties. *)

From Stdlib Require Import ZArith NArith List String Ascii Bool Lia DecimalString DecimalN.
From stdpp Require Import gmap strings list fin_maps.

Local Open Scope string_scope.
Local Open Scope list_scope.
Local Open Scope N_scope.

(** ** JavaScript strings *)

Abbreviation jsstring := (list N).

(** An ASCII literal as a JavaScript string. *)
Fixpoint js (s : string) : jsstring :=
  match s with
  | EmptyString => []
  | String a r => N_of_ascii a :: js r
  end.

(** [s.startsWith(p)]. *)
Fixpoint starts_with (p s : jsstring) : bool :=
  match p, s with
  | [], _ => true
  | a :: p', b :: s' => (a =? b) && starts_with p' s'
  | _ :: _, [] => false
  end.

(** [s[0] === c] for a one-character literal [c]. *)
Definition first_is (c : N) (s : jsstring) : bool :=
  match s with
  | a :: _ => a =? c
  | [] => false
  end.

(** Truthiness of a string-or-undefined value: only a non-empty string is
    truthy. *)
Definition truthy (v : option jsstring) : bool :=
  match v with
  | Some (_ :: _) => true
  | _ => false
  end.

(** [a || b] on string-or-undefined values. *)
Definition js_or (a b : option jsstring) : option jsstring :=
  if truthy a then a else b.

(** [a || "literal"]. *)
Definition or_else (a : option jsstring) (b : jsstring) : jsstring :=
  match a with
  | Some (c :: s) => c :: s
  | _ => b
  end.

(** [\w] of a JavaScript regular expression: [A-Za-z0-9_]. *)
Definition is_word_char (c : N) : bool :=
  ((48 <=? c) && (c <=? 57)) || ((65 <=? c) && (c <=? 90))
  || ((97 <=? c) && (c <=? 122)) || (c =? 95).

(** The rest of [/^\w+:\/\//] once one word character has been read.  A
    colon is no word character, so the greedy [\w+] stops at exactly one
    place. *)
Fixpoint url_scheme_rest (s : jsstring) : bool :=
  match s with
  | c :: r => if is_word_char c then url_scheme_rest r else starts_with (js "://") s
  | [] => false
  end.

(** [/^\w+:\/\//.test(s)]. *)
Definition is_url (s : jsstring) : bool :=
  match s with
  | c :: r => is_word_char c && url_scheme_rest r
  | [] => false
  end.

(** Number to string, as [+] does between a string and a counter value. *)
Definition number_to_string (n : N) : jsstring :=
  js (NilEmpty.string_of_uint (N.to_uint n)).

(** ** Computations *)

(** What a computation can end with instead of a value.  [OutOfFuel] is
    not a JavaScript exception: it marks a [while] loop cut by the bound
    the model puts on its iterations. *)
Inductive Exn : Type :=
| TypeError
| InvalidInput (message : jsstring)
| OutOfFuel.

(** One run of a computation: the calls it made on its collaborators, the
    value it returned or the exception it threw, and the state it left. *)
Record Run (St Ev A : Type) : Type := {
  calls : list Ev;
  result : Exn + A;
  state : St
}.
Arguments calls {St Ev A} _.
Arguments result {St Ev A} _.
Arguments state {St Ev A} _.
Arguments Build_Run {St Ev A} _ _ _.

(** A computation over a state [St] that records calls of type [Ev]. *)
Definition Js (St Ev A : Type) : Type := St -> Run St Ev A.

Definition ret {St Ev A} (a : A) : Js St Ev A :=
  fun s => {| calls := []; result := inr a; state := s |}.

Definition throw {St Ev A} (e : Exn) : Js St Ev A :=
  fun s => {| calls := []; result := inl e; state := s |}.

Definition bind {St Ev A B} (m : Js St Ev A) (k : A -> Js St Ev B) : Js St Ev B :=
  fun s =>
    let r := m s in
    match result r with
    | inl e => {| calls := calls r; result := inl e; state := state r |}
    | inr a =>
      let r' := k a (state r) in
      {| calls := calls r ++ calls r'; result := result r'; state := state r' |}
    end.

(** Record one call on a collaborator. *)
Definition emit {St Ev} (e : Ev) : Js St Ev unit :=
  fun s => {| calls := [e]; result := inr tt; state := s |}.

Definition get {St Ev} : Js St Ev St :=
  fun s => {| calls := []; result := inr s; state := s |}.

Definition put {St Ev} (s : St) : Js St Ev unit :=
  fun _ => {| calls := []; result := inr tt; state := s |}.

Notation "x <- m ;; k" := (bind m (fun x => k))
  (at level 100, m at next level, right associativity).
Notation "m ;;; k" := (bind m (fun _ => k))
  (at level 100, right associativity).

(** ** Object values *)

(** A primitive stored in a field. *)
Inductive Prim : Type :=
| PUndefined
| PNull
| PNum (z : Z)
| PStr (s : jsstring).

(** A field of a diagnostic: a primitive, or a flat object literal. *)
Inductive Value : Type :=
| VPrim (p : Prim)
| VObj (o : gmap string Prim).

Definition num_or_null (v : option Z) : Prim :=
  match v with
  | Some z => PNum z
  | None => PNull
  end.

Definition str_or_undefined (v : option jsstring) : Prim :=
  match v with
  | Some s => PStr s
  | None => PUndefined
  end.

(** Truthiness of a primitive. *)
Definition prim_truthy (p : Prim) : bool :=
  match p with
  | PUndefined | PNull => false
  | PNum z => negb (z =? 0)%Z
  | PStr s => truthy (Some s)
  end.

(** A field read: [o.k], undefined when the field is absent. *)
Definition field (o : gmap string Prim) (k : string) : Prim :=
  default PUndefined (o !! k).

(** ** input.js: the collaborators *)

(** What [consumer.originalPositionFor] answers: every field is null when
    the generated position has no original one. *)
Record OriginalPosition : Type := {
  op_source : option jsstring;
  op_line : option Z;
  op_column : option Z
}.

(** The decoded source map, as far as [Input] reads it. *)
Record Consumer : Type := {
  consumer_file : option jsstring;
  sourceRoot : option jsstring;
  originalPositionFor : Z -> Z -> OriginalPosition;
  sourceContentFor : jsstring -> option jsstring
}.

(** A [PreviousMap] object: the map's text when one was found, the
    consumer its [consumer()] method returns, and the [file] label that
    [Input] binds late. *)
Record PreviousMap : Type := {
  pm_text : option jsstring;
  pm_consumer : Consumer;
  pm_file : option jsstring
}.

(** The first argument of [new Input]: null, undefined, a string, or an
    object.  Of an object the constructor and the template literal of its
    error message read two things: the string its [toString] returns, when
    it has a [toString], and the text of the primitive its [valueOf]
    returns, when it has a [valueOf] that returns one. *)
Inductive CssArg : Type :=
| CssNull
| CssUndefined
| CssText (s : jsstring)
| CssObject (toString valueOf : option jsstring).

(** Functions imported from outside the repository's sources: [path] of
    [deps.js] and the constructor of [previous-map.js], with the type of
    the map options the latter reads from [opts].  They are taken as
    functions that return; so are the methods of the consumer. *)
Class Host : Type := {
  MapOptions : Type;
  path_isAbsolute : jsstring -> bool;
  path_resolve : list jsstring -> jsstring;
  PreviousMap_new : jsstring -> option jsstring -> option MapOptions -> PreviousMap
}.

(** The calls [Input] makes on a linked map. *)
Inductive MapCall : Type :=
| CallConsumer
| CallOriginalPositionFor (line column : Z)
| CallSourceContentFor (source : jsstring).

(** Modelled from the spec: [css-syntax-error.js] is not among the sources.
    The constructor stores its arguments under the field names of the
    diagnostic shape [{message, line, column, source, file?, plugin?}]; the
    two optional fields are present when their argument is truthy. *)
Definition CssSyntaxError_new (message : jsstring) (line column source file plugin : Prim)
  : gmap string Value :=
  let result : gmap string Value :=
    {[ "message" := VPrim (PStr message); "line" := VPrim line;
       "column" := VPrim column; "source" := VPrim source ]} in
  let result := if prim_truthy file then <["file" := VPrim file]> result else result in
  if prim_truthy plugin then <["plugin" := VPrim plugin]> result else result.

(** ** input.js: class Input *)

Section InputJs.
Context `{Host}.

(** The options of [new Input]. *)
Record Opts : Type := {
  opt_from : option jsstring;
  opt_map : option MapOptions
}.

(** The options of [error]. *)
Record ErrorOpts : Type := {
  opt_plugin : option jsstring
}.

(** The fields of an [Input] object. *)
Record Input : Type := {
  input_css : jsstring;
  input_hasBOM : bool;
  input_file : option jsstring;
  input_id : option jsstring;
  input_map : option PreviousMap
}.

(** [this.map.consumer()]. *)
Definition consumer (m : PreviousMap) : Js N MapCall Consumer :=
  emit CallConsumer ;;; ret (pm_consumer m).

(** [mapResolve(file)]: reading [this.map.consumer] of an [Input] without a
    map is a [TypeError]. *)
Definition mapResolve (this : Input) (file : jsstring) : Js N MapCall jsstring :=
  if is_url file then ret file
  else
    match input_map this with
    | None => throw TypeError
    | Some m =>
      c <- consumer m ;;
      ret (path_resolve [or_else (sourceRoot c) (js "."); file])
    end.

(** [get from()]. *)
Definition from (this : Input) : option jsstring :=
  js_or (input_file this) (input_id this).

(** The message of the error of line 22, [received] being the argument
    as the template literal prints it. *)
Definition received_message (received : jsstring) : jsstring :=
  js "PostCSS received " ++ received ++ js " instead of CSS string".

(** The guard of the constructor and [css.toString()] (lines 21 to 34).
    Null and an object without [toString] are refused with the error of
    line 22; to print the object the template literal has only its
    [valueOf], and throws a [TypeError] of its own when that gives no
    primitive.  Undefined passes the guard, and reading its [toString] is
    a [TypeError]. *)
Definition css_toString (css : CssArg) : Exn + jsstring :=
  match css with
  | CssNull => inl (InvalidInput (received_message (js "null")))
  | CssUndefined => inl TypeError
  | CssText s => inr s
  | CssObject (Some s) _ => inr s
  | CssObject None (Some v) => inl (InvalidInput (received_message v))
  | CssObject None None => inl TypeError
  end.

(** The constructor, in the order of its statements; [this] is passed
    from one to the next.  First the byte-order mark (lines 36 to 41). *)
Definition strip_bom (text : jsstring) : bool * jsstring :=
  if first_is 0xFEFF text || first_is 0xFFFE text
  then (true, tail text) else (false, text).

(** [opts.from] (lines 43 to 59). *)
Definition resolve_from (from : option jsstring) : option jsstring :=
  match from with
  | Some (c :: f) =>
    if is_url (c :: f) || path_isAbsolute (c :: f)
    then Some (c :: f) else Some (path_resolve [c :: f])
  | _ => None
  end.

Definition set_file (this : Input) (file : option jsstring) : Input :=
  {| input_css := input_css this; input_hasBOM := input_hasBOM this;
     input_file := file; input_id := input_id this; input_map := input_map this |}.

Definition set_id (this : Input) (id : option jsstring) : Input :=
  {| input_css := input_css this; input_hasBOM := input_hasBOM this;
     input_file := input_file this; input_id := id; input_map := input_map this |}.

Definition set_map (this : Input) (map : option PreviousMap) : Input :=
  {| input_css := input_css this; input_hasBOM := input_hasBOM this;
     input_file := input_file this; input_id := input_id this; input_map := map |}.

(** The previous map (lines 61 to 75). *)
Definition link_map (this : Input) (opts : Opts) : Js N MapCall Input :=
  let map := PreviousMap_new (input_css this) (opt_from opts) (opt_map opts) in
  if truthy (pm_text map) then
    let this := set_map this (Some map) in
    c <- consumer map ;;
    let file := consumer_file c in
    if negb (truthy (input_file this)) && truthy file then
      resolved <- mapResolve this (default [] file) ;;
      ret (set_file this (Some resolved))
    else ret this
  else ret this.

(** The synthetic identifier (lines 77 to 91).  The counter is a
    JavaScript number, exact for every count below 2^53; here it counts in
    [N]. *)
Definition assign_id (this : Input) : Js N MapCall Input :=
  if negb (truthy (input_file this)) then
    sequence <- get ;;
    put (sequence + 1) ;;;
    ret (set_id this (Some (js "<input css " ++ number_to_string (sequence + 1) ++ js ">")))
  else ret this.

(** [if (this.map) this.map.file = this.from] (line 92). *)
Definition label_map (this : Input) : Input :=
  match input_map this with
  | Some m =>
    set_map this (Some {| pm_text := pm_text m; pm_consumer := pm_consumer m;
                          pm_file := from this |})
  | None => this
  end.

(** [new Input(css, opts)]; the state is the module's [sequence]. *)
Definition Input_new (css : CssArg) (opts : Opts) : Js N MapCall Input :=
  match css_toString css with
  | inl e => throw e
  | inr text =>
    let '(hasBOM, css) := strip_bom text in
    let this := {| input_css := css; input_hasBOM := hasBOM;
                   input_file := resolve_from (opt_from opts);
                   input_id := None; input_map := None |} in
    this <- link_map this opts ;;
    this <- assign_id this ;;
    ret (label_map this)
  end.

(** [origin(line, column)]: [None] is the [false] it returns. *)
Definition origin (this : Input) (line column : Z) : Js N MapCall (option (gmap string Prim)) :=
  match input_map this with
  | None => ret None
  | Some m =>
    c <- consumer m ;;
    emit (CallOriginalPositionFor line column) ;;;
    let from := originalPositionFor c line column in
    match op_source from with
    | Some (a :: s) =>
      file <- mapResolve this (a :: s) ;;
      let result : gmap string Prim :=
        {[ "file" := PStr file; "line" := num_or_null (op_line from);
           "column" := num_or_null (op_column from) ]} in
      emit (CallSourceContentFor (a :: s)) ;;;
      let source := sourceContentFor c (a :: s) in
      match source with
      | Some (b :: t) => ret (Some (<["source" := PStr (b :: t)]> result))
      | _ => ret (Some result)
      end
    | _ => ret None
    end
  end.

(** [error(message, line, column, opts)]. *)
Definition error (this : Input) (message : jsstring) (line column : Z) (opts : ErrorOpts)
  : Js N MapCall (gmap string Value) :=
  origin <- origin this line column ;;
  let result :=
    match origin with
    | Some o =>
      CssSyntaxError_new message (field o "line") (field o "column") (field o "source")
        (field o "file") (str_or_undefined (opt_plugin opts))
    | None =>
      CssSyntaxError_new message (PNum line) (PNum column) (PStr (input_css this))
        (str_or_undefined (input_file this)) (str_or_undefined (opt_plugin opts))
    end in
  let input : gmap string Prim :=
    {[ "line" := PNum line; "column" := PNum column; "source" := PStr (input_css this) ]} in
  let input :=
    match input_file this with
    | Some (a :: f) => <["file" := PStr (a :: f)]> input
    | _ => input
    end in
  ret (<["input" := VObj input]> result).

(** Constructing several inputs one after the other in one process. *)
Fixpoint construct_all (args : list (CssArg * Opts)) : Js N MapCall (list Input) :=
  match args with
  | [] => ret []
  | (css, opts) :: rest =>
    input <- Input_new css opts ;;
    inputs <- construct_all rest ;;
    ret (input :: inputs)
  end.

End InputJs.

(** ** terminal-highlight.js: the collaborators *)

(** A token [[type, value, ...]]: only the first two entries are read. *)
Abbreviation token := (string * jsstring)%type.

(** The colour functions of [chalk] that the theme uses. *)
Inductive Color : Type := cyan | gray | green | yellow | magenta.

(** The calls made on the token stream. *)
Inductive StreamCall : Type :=
| CallEndOfFile
| CallNextToken
| CallBack (t : token).

(** The escape character that opens a colour-control sequence. *)
Definition ESC : N := 27.

(** Modelled from the spec: a colour-control sequence is a terminal escape
    sequence that selects a display colour, [ESC [ digits-or-semicolons m].
    The scanner is in one of three states: in plain text, after [ESC], or
    inside the parameters (kept in [seen], last first, in case the sequence
    does not end in [m] and has to stay). *)
Inductive Scan : Type :=
| Plain
| AfterEsc
| InParams (seen : jsstring).

Definition is_param_char (c : N) : bool :=
  ((48 <=? c) && (c <=? 57)) || (c =? 59).

Fixpoint strip_from (st : Scan) (s : jsstring) : jsstring :=
  match s with
  | [] =>
    match st with
    | Plain => []
    | AfterEsc => [ESC]
    | InParams seen => ESC :: 91 :: rev seen
    end
  | c :: r =>
    match st with
    | Plain => if c =? ESC then strip_from AfterEsc r else c :: strip_from Plain r
    | AfterEsc =>
      if c =? 91 then strip_from (InParams []) r
      else if c =? ESC then ESC :: strip_from AfterEsc r
      else ESC :: c :: strip_from Plain r
    | InParams seen =>
      if c =? 109 then strip_from Plain r
      else if is_param_char c then strip_from (InParams (c :: seen)) r
      else if c =? ESC then ESC :: 91 :: rev seen ++ strip_from AfterEsc r
      else ESC :: 91 :: rev seen ++ c :: strip_from Plain r
    end
  end.

(** Removing every colour-control sequence from a string. *)
Definition strip_ansi (s : jsstring) : jsstring := strip_from Plain s.

(** [chalk] of [deps.js]: pure functions from strings to strings.  What is
    known of them is that the colour they add is made of colour-control
    sequences: around a text without escape character, stripping gives the
    text back. *)
Class Chalk : Type := {
  chalk : Color -> jsstring -> jsstring;
  chalk_strip : forall c s rest,
    ESC ∉ s -> strip_ansi (chalk c s ++ rest) = s ++ strip_ansi rest
}.

(** The names every object literal inherits: under them a lookup in
    [HIGHLIGHT_THEME] would find a property of [Object.prototype]. *)
Definition inherited_names : list string :=
  [ "constructor"; "hasOwnProperty"; "isPrototypeOf"; "propertyIsEnumerable";
    "toLocaleString"; "toString"; "valueOf"; "__proto__";
    "__defineGetter__"; "__defineSetter__"; "__lookupGetter__"; "__lookupSetter__" ].

(** The token stream of [tokenize.js], which is not among the sources, in
    the forgiving mode [{ ignoreErrors: true }] that [terminalHighlight]
    asks for.  [pending] is the sequence of tokens the stream has still to
    deliver; the three methods are specified against it.  The values of
    the tokens of a fresh stream spell the text of the input, and their
    types are tags of the tokenizer, none of them an inherited name. *)
Class Tokenizer `{Host} (Processor : Type) : Type := {
  tokenizer : Input -> Processor;
  endOfFile : Processor -> bool;
  nextToken : Processor -> option (token * Processor);
  back : token -> Processor -> Processor;
  pending : Processor -> list token;
  endOfFile_pending : forall s, endOfFile s = true <-> pending s = [];
  nextToken_pending : forall s t r,
    pending s = t :: r -> exists s', nextToken s = Some (t, s') /\ pending s' = r;
  back_pending : forall s t, pending (back t s) = t :: pending s;
  tokenizer_lossless : forall input,
    concat (map snd (pending (tokenizer input))) = input_css input;
  tokenizer_types : forall input,
    Forall (fun tok => fst tok ∉ inherited_names) (pending (tokenizer input))
}.

(** ** terminal-highlight.js *)

(** [HIGHLIGHT_THEME], read by own property: the categories looked up are
    [class], [hash], [call] and the types of tokens. *)
Definition HIGHLIGHT_THEME : gmap string Color :=
  list_to_map
    [ ("brackets", cyan); ("at-word", cyan); ("comment", gray); ("string", green);
      ("class", yellow); ("call", cyan); ("hash", magenta);
      ("(", cyan); (")", cyan); ("{", yellow); ("}", yellow);
      ("[", yellow); ("]", yellow); (":", yellow); (";", yellow) ].

(** Put a character in front of the first of a list of parts. *)
Definition push_front (c : N) (parts : list jsstring) : list jsstring :=
  match parts with
  | p :: rest => (c :: p) :: rest
  | [] => [[c]]
  end.

(** [s.split(/\r?\n/)]. *)
Fixpoint split_lines (s : jsstring) : list jsstring :=
  match s with
  | [] => [[]]
  | c :: r =>
    if c =? 10 then [] :: split_lines r
    else
      match r with
      | d :: r' =>
        if (c =? 13) && (d =? 10) then [] :: split_lines r'
        else push_front c (split_lines r)
      | [] => push_front c (split_lines r)
      end
  end.

(** [parts.join(sep)]. *)
Fixpoint join (sep : jsstring) (parts : list jsstring) : jsstring :=
  match parts with
  | [] => []
  | [p] => p
  | p :: rest => p ++ sep ++ join sep rest
  end.

(** Run a computation and relabel the calls it records. *)
Definition relabel {St Ev Ev' A} (f : Ev -> Ev') (m : Js St Ev A) : Js St Ev' A :=
  fun s =>
    let r := m s in
    {| calls := map f (calls r); result := result r; state := state r |}.

(** Run a computation on an object that is local to the caller. *)
Definition with_local {St L Ev A} (l : L) (m : Js L Ev A) : Js St Ev A :=
  fun s =>
    let r := m l in
    {| calls := calls r; result := result r; state := s |}.

Section TerminalHighlight.
Context `{Host} {Processor : Type} `{!Tokenizer Processor} `{Chalk}.

Definition processor_endOfFile : Js Processor StreamCall bool :=
  emit CallEndOfFile ;;; s <- get ;; ret (endOfFile s).

(** [processor.nextToken()] where the caller reads the token at once: on
    the undefined of an exhausted stream that read is a [TypeError]. *)
Definition processor_nextToken : Js Processor StreamCall token :=
  emit CallNextToken ;;;
  s <- get ;;
  match nextToken s with
  | Some (t, s') => put s' ;;; ret t
  | None => throw TypeError
  end.

Definition processor_back (t : token) : Js Processor StreamCall unit :=
  emit (CallBack t) ;;; s <- get ;; put (back t s).

(** [getTokenType([type, value], processor)]. *)
Definition getTokenType (tok : token) : Js Processor StreamCall string :=
  let '(type, value) := tok in
  if String.eqb type "word" && first_is 46 value then ret "class"
  else if String.eqb type "word" && first_is 35 value then ret "hash"
  else
    eof <- processor_endOfFile ;;
    if negb eof then
      next <- processor_nextToken ;;
      processor_back next ;;;
      if String.eqb (fst next) "brackets" || String.eqb (fst next) "(" then ret "call"
      else ret type
    else ret type.

(** The [while] loop of [terminalHighlight], at most [fuel] iterations. *)
Fixpoint highlight_loop (fuel : nat) (result : jsstring) : Js Processor StreamCall jsstring :=
  match fuel with
  | O => throw OutOfFuel
  | S fuel' =>
    eof <- processor_endOfFile ;;
    if negb eof then
      tok <- processor_nextToken ;;
      category <- getTokenType tok ;;
      match HIGHLIGHT_THEME !! category with
      | Some color =>
        highlight_loop fuel'
          (result ++ join [10] (map (chalk color) (split_lines (snd tok))))
      | None => highlight_loop fuel' (result ++ snd tok)
      end
    else ret result
  end.

(** [terminalHighlight(css)]: [new Input(css)] has no options. *)
Definition terminalHighlight (fuel : nat) (css : jsstring)
  : Js N (MapCall + StreamCall) jsstring :=
  input <- relabel inl (Input_new (CssText css) {| opt_from := None; opt_map := None |}) ;;
  with_local (tokenizer input) (relabel inr (highlight_loop fuel [])).

End TerminalHighlight.

(** ** Reference collaborators

    Concrete collaborators on which the model runs: POSIX-like paths
    under a working directory [/cwd], inputs without a previous map,
    [chalk] with colours enabled, and a token stream held as a list. *)

Definition posix_isAbsolute (p : jsstring) : bool := first_is 47 p.

(** The parts of a path between its slashes. *)
Fixpoint segments (s : jsstring) : list jsstring :=
  match s with
  | [] => [[]]
  | c :: r =>
    if c =? 47 then [] :: segments r
    else
      match segments r with
      | seg :: rest => (c :: seg) :: rest
      | [] => [[c]]
      end
  end.

(** Equality of two strings. *)
Definition same_string (a b : jsstring) : bool := starts_with a b && starts_with b a.

(** The segments that remain of an absolute path: empty segments and [.]
    go, and [..] takes the segment before it along. *)
Definition normal_segments (segs : list jsstring) : list jsstring :=
  fold_left
    (fun kept seg =>
       if same_string seg [] || same_string seg (js ".") then kept
       else if same_string seg (js "..") then removelast kept
       else kept ++ [seg])
    segs [].

Definition posix_normalize (path : jsstring) : jsstring :=
  match normal_segments (segments path) with
  | [] => js "/"
  | segs => concat (map (fun seg => 47 :: seg) segs)
  end.

(** [path.resolve(...parts)] under the working directory [/cwd]: an
    absolute part restarts the path, a relative one is appended, and the
    result is normalised. *)
Definition posix_resolve (parts : list jsstring) : jsstring :=
  posix_normalize
    (fold_left
       (fun acc p =>
          match p with
          | [] => acc
          | _ => if posix_isAbsolute p then p else acc ++ 47 :: p
          end)
       parts (js "/cwd")).

Definition no_consumer : Consumer :=
  {| consumer_file := None; sourceRoot := None;
     originalPositionFor := fun _ _ =>
       {| op_source := None; op_line := None; op_column := None |};
     sourceContentFor := fun _ => None |}.

#[local] Instance posix_host : Host :=
  {| MapOptions := unit;
     path_isAbsolute := posix_isAbsolute;
     path_resolve := posix_resolve;
     PreviousMap_new := fun _ _ _ =>
       {| pm_text := None; pm_consumer := no_consumer; pm_file := None |} |}.

(** The SGR codes of the theme's colours; 39 resets the foreground. *)
Definition sgr_code (c : Color) : N :=
  match c with
  | cyan => 36
  | gray => 90
  | green => 32
  | yellow => 33
  | magenta => 35
  end.

Definition sgr (code : N) : jsstring :=
  ESC :: 91 :: number_to_string code ++ [109].

Definition ansi (c : Color) (s : jsstring) : jsstring :=
  sgr (sgr_code c) ++ s ++ sgr 39.

(** The stream of the tokenizer: pushed-back tokens are delivered first,
    last in first out, then the tokens not yet read. *)
Record ListStream : Type := {
  returned : list token;
  unread : list token
}.

Definition list_endOfFile (s : ListStream) : bool :=
  match returned s, unread s with
  | [], [] => true
  | _, _ => false
  end.

Definition list_nextToken (s : ListStream) : option (token * ListStream) :=
  match returned s with
  | t :: r => Some (t, {| returned := r; unread := unread s |})
  | [] =>
    match unread s with
    | t :: u => Some (t, {| returned := []; unread := u |})
    | [] => None
    end
  end.

Definition list_back (t : token) (s : ListStream) : ListStream :=
  {| returned := t :: returned s; unread := unread s |}.

Definition list_pending (s : ListStream) : list token := returned s ++ unread s.

(** A tokenizer that delivers a whole non-empty text as one token of the
    given type. *)
Definition one_token (type : string) (css : jsstring) : list token :=
  match css with
  | [] => []
  | _ => [(type, css)]
  end.

(** [chalk] with colours enabled. *)
#[local] Instance ansi_chalk : Chalk.
Proof.
  refine {| chalk := ansi; chalk_strip := _ |}.
  abstract (
    intros c s rest Hs; unfold ansi; rewrite <- !app_assoc;
    transitivity (strip_ansi (s ++ sgr 39 ++ rest)); [by destruct c|];
    unfold strip_ansi; induction s as [ | a s IH ]; [reflexivity|];
    apply not_elem_of_cons in Hs as [Ha Hs]; cbn;
    destruct (N.eqb_spec a ESC) as [->|_]; [done|]; f_equal; by apply IH).
Defined.

(** The list stream behind a tokenizer that delivers the text as one token
    of the given type. *)
Definition list_tokenizer `{Host} (type : string) (Htype : type ∉ inherited_names)
  : Tokenizer ListStream.
Proof.
  refine {| tokenizer := fun input =>
              {| returned := []; unread := one_token type (input_css input) |};
            endOfFile := list_endOfFile;
            nextToken := list_nextToken;
            back := list_back;
            pending := list_pending |}.
  - abstract (intros s; unfold list_endOfFile, list_pending;
              destruct (returned s), (unread s); cbn; split; done).
  - abstract (intros s t r; unfold list_nextToken, list_pending;
              destruct (returned s) as [ | t' r' ]; cbn;
              [destruct (unread s) as [ | t' u ]; [done|]; intros [= -> ->]; by eexists
              |intros [= -> <-]; by eexists]).
  - abstract reflexivity.
  - abstract (intros input; cbn; destruct (input_css input); [reflexivity|];
              cbn; by rewrite app_nil_r).
  - abstract (intros input; cbn; destruct (input_css input); by repeat constructor).
Defined.

Definition comment_tokenizer `{Host} : Tokenizer ListStream.
Proof.
  refine (list_tokenizer "comment" _).
  abstract (rewrite list_elem_of_In; cbn; intuition discriminate).
Defined.

Definition word_tokenizer `{Host} : Tokenizer ListStream.
Proof.
  refine (list_tokenizer "word" _).
  abstract (rewrite list_elem_of_In; cbn; intuition discriminate).
Defined.

(** Sample inputs.  An input linked to a map that sends the generated
    position (2, 5) to line 10, column 3 of ["a.sass"]. *)
Definition sass_consumer : Consumer :=
  {| consumer_file := None;
     sourceRoot := None;
     originalPositionFor := fun line column =>
       if ((line =? 2) && (column =? 5))%Z
       then {| op_source := Some (js "a.sass"); op_line := Some 10%Z; op_column := Some 3%Z |}
       else {| op_source := None; op_line := None; op_column := None |};
     sourceContentFor := fun _ => None |}.

Definition sass_map : PreviousMap :=
  {| pm_text := Some (js "{}"); pm_consumer := sass_consumer;
     pm_file := Some (js "/cwd/a.css") |}.

Definition sass_input : Input :=
  {| input_css := js "a{}"; input_hasBOM := false; input_file := Some (js "/cwd/a.css");
     input_id := None; input_map := Some sass_map |}.

(** An input without file and without map. *)
Definition plain_input : Input :=
  {| input_css := js "a{}"; input_hasBOM := false; input_file := None;
     input_id := Some (js "<input css 1>"); input_map := None |}.

Definition no_opts : Opts := {| opt_from := None; opt_map := None |}.

(** A stream whose next token is an opening parenthesis. *)
Definition parenthesis_next : ListStream :=
  {| returned := []; unread := [("(", js "("); ("word", js "a"); (")", js ")")] |}.

(** A comment with a ["\r\n"] inside. *)
Definition comment_crlf : jsstring := js "/*a" ++ [13; 10] ++ js "b*/".

(** ** The vocabulary of the statements *)

(** The synthetic identifier number [n]. *)
Definition synthetic_id (n : N) : jsstring :=
  js "<input css " ++ number_to_string n ++ js ">".

(** Whether the previous map of this text and these options names a file. *)
Definition map_names_file `{Host} (css : jsstring) (opts : Opts) : bool :=
  let map := PreviousMap_new css (opt_from opts) (opt_map opts) in
  truthy (pm_text map) && truthy (consumer_file (pm_consumer map)).

(** An argument list of the constructor for which no file is known: a text,
    no [from], and no file named by a previous map. *)
Definition anonymous `{Host} (arg : CssArg * Opts) : Prop :=
  exists text,
    css_toString (fst arg) = inr text /\
    truthy (opt_from (snd arg)) = false /\
    map_names_file (snd (strip_bom text)) (snd arg) = false.

(** The secondary location [error] attaches: the position it was asked
    about, in the text of this input, with the file of this input when it
    has one. *)
Definition asked_location (this : Input) (line column : Z) : gmap string Prim :=
  {[ "line" := PNum line; "column" := PNum column; "source" := PStr (input_css this) ]}
  ∪ (if truthy (input_file this)
     then {[ "file" := PStr (default [] (input_file this)) ]} else ∅).

(** Every ["\r\n"] replaced by ["\n"]. *)
Fixpoint crlf_to_lf (s : jsstring) : jsstring :=
  match s with
  | [] => []
  | c :: r =>
    match r with
    | d :: r' => if (c =? 13) && (d =? 10) then 10 :: crlf_to_lf r' else c :: crlf_to_lf r
    | [] => [c]
    end
  end.

(** Whether ["\r\n"] occurs in a string. *)
Fixpoint has_crlf (s : jsstring) : bool :=
  match s with
  | [] => false
  | c :: r =>
    match r with
    | d :: _ => ((c =? 13) && (d =? 10)) || has_crlf r
    | [] => false
    end
  end.

(** The category of a token, given the tokens that follow it. *)
Definition classify (tok : token) (following : list token) : string :=
  if String.eqb (fst tok) "word" && first_is 46 (snd tok) then "class"
  else if String.eqb (fst tok) "word" && first_is 35 (snd tok) then "hash"
  else
    match following with
    | next :: _ =>
      if String.eqb (fst next) "brackets" || String.eqb (fst next) "(" then "call"
      else fst tok
    | [] => fst tok
    end.

(** What the loop appends for a token, given the tokens that follow it. *)
Definition piece `{Chalk} (tok : token) (following : list token) : jsstring :=
  match HIGHLIGHT_THEME !! classify tok following with
  | Some color => join [10] (map (chalk color) (split_lines (snd tok)))
  | None => snd tok
  end.

Fixpoint rendered `{Chalk} (toks : list token) : jsstring :=
  match toks with
  | [] => []
  | tok :: following => piece tok following ++ rendered following
  end.

(** The text a reader sees: the values of the tokens in order, with
    ["\r\n"] turned into ["\n"] inside the tokens that get a colour. *)
Fixpoint shown (toks : list token) : jsstring :=
  match toks with
  | [] => []
  | tok :: following =>
    match HIGHLIGHT_THEME !! classify tok following with
    | Some _ => crlf_to_lf (snd tok)
    | None => snd tok
    end ++ shown following
  end.

(** What is left of the string a run returned once the colour-control
    sequences are removed. *)
Definition value_shown {St Ev} (r : Run St Ev jsstring) : option jsstring :=
  match result r with
  | inr out => Some (strip_ansi out)
  | inl _ => None
  end.

(** ** Further vocabulary and collaborators *)

(** Whether no token of a sequence gets a colour. *)
Fixpoint uncoloured (toks : list token) : bool :=
  match toks with
  | [] => true
  | tok :: following =>
    match HIGHLIGHT_THEME !! classify tok following with
    | Some _ => false
    | None => uncoloured following
    end
  end.

(** Whether a token is a word that starts with a dot or with a hash. *)
Definition is_selector_word (tok : token) : bool :=
  String.eqb (fst tok) "word" && (first_is 46 (snd tok) || first_is 35 (snd tok)).

(** A consumer of a map that names the file [out.css] under the source
    root [/srv/site], and a host whose every text carries that map. *)
Definition out_consumer : Consumer :=
  {| consumer_file := Some (js "out.css");
     sourceRoot := Some (js "/srv/site");
     originalPositionFor := fun _ _ =>
       {| op_source := None; op_line := None; op_column := None |};
     sourceContentFor := fun _ => None |}.

Definition mapped_host : Host :=
  {| MapOptions := unit;
     path_isAbsolute := posix_isAbsolute;
     path_resolve := posix_resolve;
     PreviousMap_new := fun _ _ _ =>
       {| pm_text := Some (js "{}"); pm_consumer := out_consumer; pm_file := None |} |}.

(** What [mapResolve] returns on an input whose map has the consumer [c]:
    a URL as it is, any other name resolved against the source root or
    the current directory. *)
Definition resolved_against `{Host} (c : Consumer) (file : jsstring) : jsstring :=
  if is_url file then file else path_resolve [or_else (sourceRoot c) (js "."); file].

(** * Running computations *)

Section Running.
Context {St Ev : Type}.

Lemma bind_ok {A B} (m : Js St Ev A) (k : A -> Js St Ev B) (s : St) (a : A) :
  result (m s) = inr a ->
  bind m k s =
  {| calls := calls (m s) ++ calls (k a (state (m s)));
     result := result (k a (state (m s)));
     state := state (k a (state (m s))) |}.
Proof. intros Hm. unfold bind. rewrite Hm. reflexivity. Qed.

Lemma bind_throw {A B} (m : Js St Ev A) (k : A -> Js St Ev B) (s : St) (e : Exn) :
  result (m s) = inl e ->
  bind m k s = {| calls := calls (m s); result := inl e; state := state (m s) |}.
Proof. intros Hm. unfold bind. rewrite Hm. reflexivity. Qed.

End Running.

(** * Properties of input.js *)

Section InputFacts.
Context `{Host}.

(** [mapResolve] on an input with a map, and on a URL. *)
Lemma mapResolve_linked (this : Input) (m : PreviousMap) (file : jsstring) (sequence : N) :
  input_map this = Some m ->
  mapResolve this file sequence =
  if is_url file then {| calls := []; result := inr file; state := sequence |}
  else {| calls := [CallConsumer];
          result := inr (path_resolve [or_else (sourceRoot (pm_consumer m)) (js "."); file]);
          state := sequence |}.
Proof.
  intros Hm. unfold mapResolve. rewrite Hm. destruct (is_url file); reflexivity.
Qed.

Lemma mapResolve_returns (this : Input) (m : PreviousMap) (file : jsstring) (sequence : N) :
  input_map this = Some m ->
  exists r, result (mapResolve this file sequence) = inr r /\
            state (mapResolve this file sequence) = sequence.
Proof.
  intros Hm. rewrite (mapResolve_linked this m file sequence Hm).
  destruct (is_url file); by eexists.
Qed.

Lemma mapResolve_url (this : Input) (file : jsstring) (sequence : N) :
  is_url file = true ->
  mapResolve this file sequence = {| calls := []; result := inr file; state := sequence |}.
Proof. intros Hurl. unfold mapResolve. rewrite Hurl. reflexivity. Qed.

Lemma mapResolve_unlinked (this : Input) (file : jsstring) (sequence : N) :
  input_map this = None -> is_url file = false ->
  mapResolve this file sequence = {| calls := []; result := inl TypeError; state := sequence |}.
Proof. intros Hm Hurl. unfold mapResolve. rewrite Hurl, Hm. reflexivity. Qed.

Lemma link_map_spec (this : Input) (opts : Opts) (sequence : N) :
  exists this',
    result (link_map this opts sequence) = inr this' /\
    state (link_map this opts sequence) = sequence /\
    input_css this' = input_css this /\
    input_hasBOM this' = input_hasBOM this /\
    input_id this' = input_id this /\
    (truthy (input_file this) = true \/ map_names_file (input_css this) opts = false ->
     input_file this' = input_file this).
Proof.
  unfold link_map, map_names_file.
  set (map := PreviousMap_new _ _ _).
  destruct (truthy (pm_text map)) eqn:Htext; [|by eexists].
  rewrite (bind_ok (consumer map) _ _ (pm_consumer map) eq_refl).
  cbn [set_map input_file consumer calls result state bind emit ret].
  destruct (truthy (input_file this)) eqn:Hfile; cbn [negb andb]; [by eexists|].
  destruct (truthy (consumer_file (pm_consumer map))) eqn:Hmf; [|by eexists].
  destruct (mapResolve_returns (set_map this (Some map)) map
              (default [] (consumer_file (pm_consumer map))) sequence eq_refl)
    as (r & Hr & Hst).
  rewrite (bind_ok _ _ _ _ Hr), Hst. cbn.
  eexists; repeat split; intros [?|?]; discriminate.
Qed.

Lemma assign_id_spec (this : Input) (sequence : N) :
  exists this',
    result (assign_id this sequence) = inr this' /\
    input_css this' = input_css this /\
    input_hasBOM this' = input_hasBOM this /\
    input_file this' = input_file this /\
    input_map this' = input_map this /\
    ((truthy (input_file this) = true /\ this' = this /\
      state (assign_id this sequence) = sequence) \/
     (truthy (input_file this) = false /\
      input_id this' = Some (synthetic_id (sequence + 1)) /\
      state (assign_id this sequence) = sequence + 1)).
Proof.
  unfold assign_id. destruct (truthy (input_file this)) eqn:Hfile; cbn.
  - eexists. split; [reflexivity|]. repeat split. by left.
  - eexists. split; [reflexivity|]. repeat split. by right.
Qed.

Lemma label_map_fields (this : Input) :
  input_css (label_map this) = input_css this /\
  input_hasBOM (label_map this) = input_hasBOM this /\
  input_file (label_map this) = input_file this /\
  input_id (label_map this) = input_id this.
Proof. unfold label_map. destruct (input_map this); done. Qed.

(** What the constructor does on a text, in one statement: it returns, and
    the fields and the counter are as follows. *)
Lemma Input_new_text (css : CssArg) (text : jsstring) (opts : Opts) (sequence : N) :
  css_toString css = inr text ->
  exists this,
    result (Input_new css opts sequence) = inr this /\
    input_css this = snd (strip_bom text) /\
    input_hasBOM this = fst (strip_bom text) /\
    (truthy (opt_from opts) = false ->
     map_names_file (snd (strip_bom text)) opts = false -> input_file this = None) /\
    ((truthy (input_file this) = true /\ input_id this = None /\
      state (Input_new css opts sequence) = sequence) \/
     (truthy (input_file this) = false /\ input_id this = Some (synthetic_id (sequence + 1))
      /\ state (Input_new css opts sequence) = sequence + 1)).
Proof.
  intros Htext. unfold Input_new. rewrite Htext.
  destruct (strip_bom text) as [hasBOM stored] eqn:Hbom. cbn [fst snd]. cbv beta iota.
  set (this0 := Build_Input stored hasBOM (resolve_from (opt_from opts)) None None).
  destruct (link_map_spec this0 opts sequence)
    as (this1 & Hlink & Hst1 & Hcss1 & Hbom1 & Hid1 & Hfile1).
  destruct (assign_id_spec this1 sequence)
    as (this2 & Hassign & Hcss2 & Hbom2 & Hfile2 & Hmap2 & Hcases).
  destruct (label_map_fields this2) as (Hcss3 & Hbom3 & Hfile3 & Hid3).
  rewrite (bind_ok _ _ _ _ Hlink), Hst1. cbn [result state].
  rewrite (bind_ok _ _ _ _ Hassign). cbn [result state ret].
  eexists. split; [reflexivity|].
  rewrite Hcss3, Hbom3, Hfile3, Hid3, Hcss2, Hbom2, Hfile2, Hcss1, Hbom1.
  repeat split.
  - intros Hfrom Hnomap. rewrite Hfile1 by (by right).
    cbn. unfold resolve_from. destruct (opt_from opts) as [[|]|]; done.
  - destruct Hcases as [(? & -> & ->)|(? & ? & ->)]; [left|right]; repeat split; done.
Qed.

(** A constructor that throws leaves the counter as it was. *)
Lemma Input_new_throws (css : CssArg) (e : Exn) (opts : Opts) (sequence : N) :
  css_toString css = inl e ->
  Input_new css opts sequence = {| calls := []; result := inl e; state := sequence |}.
Proof. intros Hcss. unfold Input_new. rewrite Hcss. reflexivity. Qed.

(** ** Decimal numbers are told apart by their digits *)

Lemma js_inj (s1 s2 : string) : js s1 = js s2 -> s1 = s2.
Proof.
  revert s2. induction s1 as [ | a s1 IH ]; intros [ | b s2 ] Heq; simpl in Heq;
    try discriminate; [reflexivity|].
  injection Heq as Hab Hs. f_equal; [|by apply IH].
  by rewrite <- (ascii_N_embedding a), <- (ascii_N_embedding b), Hab.
Qed.

Lemma number_to_string_inj (n m : N) : number_to_string n = number_to_string m -> n = m.
Proof.
  unfold number_to_string. intros Heq. apply js_inj in Heq.
  assert (Hu : N.to_uint n = N.to_uint m).
  { apply (f_equal NilEmpty.uint_of_string) in Heq.
    rewrite !NilEmpty.usu in Heq. by injection Heq. }
  by rewrite <- (Unsigned.of_to n), <- (Unsigned.of_to m), Hu.
Qed.

Lemma synthetic_id_inj (n m : N) : synthetic_id n = synthetic_id m -> n = m.
Proof.
  unfold synthetic_id. intros Heq.
  apply app_inv_head, app_inv_tail in Heq. by apply number_to_string_inj.
Qed.

(** ** The identifiers of anonymous inputs *)

Lemma construct_all_anonymous (args : list (CssArg * Opts)) (sequence : N) :
  Forall anonymous args ->
  exists inputs,
    result (construct_all args sequence) = inr inputs /\
    state (construct_all args sequence) = sequence + N.of_nat (length args) /\
    input_id <$> inputs =
      (fun k => Some (synthetic_id (sequence + N.of_nat k))) <$> seq 1 (length args) /\
    Forall (fun this => input_file this = None) inputs.
Proof.
  revert sequence. induction args as [ | [css opts] args IH ]; intros sequence Hall.
  { exists []. cbn. repeat split; first [lia | constructor]. }
  apply Forall_cons in Hall as [(text & Htext & Hfrom & Hmap) Hall]. cbn in Htext, Hfrom, Hmap.
  destruct (Input_new_text css text opts sequence Htext)
    as (this & Hres & _ & _ & Hfile & Hcases).
  specialize (Hfile Hfrom Hmap).
  destruct Hcases as [(Htrue & _)|(_ & Hid & Hst)]; [by rewrite Hfile in Htrue|].
  destruct (IH (sequence + 1) Hall) as (inputs & Hres' & Hst' & Hids & Hfiles).
  cbn [construct_all]. rewrite (bind_ok _ _ _ _ Hres), Hst. cbn [result state].
  rewrite (bind_ok _ _ _ _ Hres'), Hst'. cbn [result state ret].
  exists (this :: inputs). repeat split.
  - cbn [length]. lia.
  - cbn [length seq]. rewrite !fmap_cons, Hid, Hids. f_equal.
    replace (seq 2 (length args)) with (S <$> seq 1 (length args)) by apply fmap_S_seq.
    rewrite <- list_fmap_compose. apply list_fmap_ext.
    intros _ k _. unfold compose. do 2 f_equal. lia.
  - by constructor.
Qed.

(** C5: for a text whose first character is one of the two byte-order
    marks, the constructor returns an input with [hasBOM] true whose text
    is the argument without that one character, so a second mark stays;
    for any other text [hasBOM] is false and the text is stored as it
    is. *)
Theorem Input_new_bom (text : jsstring) (opts : Opts) (sequence : N) :
  exists this,
    result (Input_new (CssText text) opts sequence) = inr this /\
    (forall c rest, text = c :: rest -> c = 0xFEFF \/ c = 0xFFFE ->
       input_hasBOM this = true /\ input_css this = rest) /\
    (first_is 0xFEFF text = false -> first_is 0xFFFE text = false ->
       input_hasBOM this = false /\ input_css this = text).
Proof.
  destruct (Input_new_text (CssText text) text opts sequence eq_refl)
    as (this & Hres & Hcss & Hbom & _).
  exists this. split; [exact Hres|]. rewrite Hcss, Hbom. unfold strip_bom. split.
  - intros c rest -> [-> | ->]; done.
  - intros -> ->. done.
Qed.

(** C6: constructing inputs for which no file is known, one after the
    other from a fresh counter, gives them the identifiers
    [<input css 1>] to [<input css N>] in that order, no two the same, and
    none of them has a file; and any construction that returns either has a
    file, no identifier and an unchanged counter, or has no file, the
    identifier of the next counter value and a counter one higher. *)
Theorem synthetic_ids_in_order :
  (forall args : list (CssArg * Opts),
     Forall anonymous args ->
     exists inputs,
       result (construct_all args 0) = inr inputs /\
       length inputs = length args /\
       input_id <$> inputs =
         (fun k => Some (synthetic_id (N.of_nat k))) <$> seq 1 (length args) /\
       NoDup (input_id <$> inputs) /\
       Forall (fun this => input_file this = None) inputs) /\
  (forall css opts sequence this,
     result (Input_new css opts sequence) = inr this ->
     (truthy (input_file this) = true /\ input_id this = None /\
      state (Input_new css opts sequence) = sequence) \/
     (truthy (input_file this) = false /\
      input_id this = Some (synthetic_id (sequence + 1)) /\
      state (Input_new css opts sequence) = sequence + 1)).
Proof.
  split.
  - intros args Hall.
    destruct (construct_all_anonymous args 0 Hall) as (inputs & Hres & _ & Hids & Hfiles).
    exists inputs. split; [exact Hres|].
    assert (Hlen : length inputs = length args).
    { apply (f_equal length) in Hids. by rewrite !length_fmap, length_seq in Hids. }
    repeat split; [exact Hlen|exact Hids| |exact Hfiles].
    rewrite Hids. apply NoDup_fmap_2; [|apply NoDup_seq].
    intros j k Heq.
    apply (inj Some), synthetic_id_inj in Heq. lia.
  - intros css opts sequence this Hres.
    destruct (css_toString css) as [e|text] eqn:Hcss.
    { rewrite (Input_new_throws css e opts sequence Hcss) in Hres. discriminate. }
    destruct (Input_new_text css text opts sequence Hcss) as (this' & Hres' & _ & _ & _ & Hcases).
    rewrite Hres in Hres'. injection Hres' as <-. exact Hcases.
Qed.

(** ** Positions and diagnostics *)

(** The run of [origin] on an input with a map, case by case on what the
    consumer answers. *)
Lemma origin_linked (this : Input) (m : PreviousMap) (line column : Z) (sequence : N) :
  input_map this = Some m ->
  let c := pm_consumer m in
  let from := originalPositionFor c line column in
  (truthy (op_source from) = false ->
   origin this line column sequence =
   {| calls := [CallConsumer; CallOriginalPositionFor line column];
      result := inr None; state := sequence |}) /\
  (forall source, op_source from = Some source -> truthy (Some source) = true ->
   exists resolved,
     result (mapResolve this source sequence) = inr resolved /\
     state (origin this line column sequence) = sequence /\
     result (origin this line column sequence) =
     inr (Some
       (let o : gmap string Prim :=
          {[ "file" := PStr resolved; "line" := num_or_null (op_line from);
             "column" := num_or_null (op_column from) ]} in
        if truthy (sourceContentFor c source)
        then <["source" := PStr (default [] (sourceContentFor c source))]> o else o))).
Proof.
  intros Hm c from. unfold origin. rewrite Hm.
  rewrite (bind_ok (consumer m) _ _ (pm_consumer m) eq_refl).
  cbn [consumer calls result state bind emit ret]. fold c from. split.
  - intros Hsrc. destruct (op_source from) as [[|a s]|]; try discriminate; reflexivity.
  - intros source Hsrc Htruthy. rewrite Hsrc.
    destruct source as [|a s]; [discriminate|].
    destruct (mapResolve_returns this m (a :: s) sequence Hm) as (resolved & Hres & Hst).
    exists resolved. split; [exact Hres|].
    rewrite !(bind_ok _ _ _ _ Hres), Hst. cbn [calls result state bind emit].
    destruct (sourceContentFor c (a :: s)) as [[|b t]|]; cbn; done.
Qed.

(** The fields the constructor of the diagnostic sets, and two it does not. *)
Lemma CssSyntaxError_new_fields (message : jsstring) (line column source file plugin : Prim) :
  let d := CssSyntaxError_new message line column source file plugin in
  d !! "message" = Some (VPrim (PStr message)) /\
  d !! "line" = Some (VPrim line) /\
  d !! "column" = Some (VPrim column) /\
  d !! "source" = Some (VPrim source) /\
  d !! "input" = None /\
  d !! "generated" = None.
Proof.
  unfold CssSyntaxError_new.
  destruct (prim_truthy file), (prim_truthy plugin); repeat split; reflexivity.
Qed.

Lemma CssSyntaxError_new_file (message : jsstring) (line column source file plugin : Prim) :
  CssSyntaxError_new message line column source file plugin !! "file" =
  if prim_truthy file then Some (VPrim file) else None.
Proof.
  unfold CssSyntaxError_new. by destruct (prim_truthy file), (prim_truthy plugin).
Qed.

Lemma origin_returns (this : Input) (line column : Z) (sequence : N) :
  exists o, result (origin this line column sequence) = inr o /\
            state (origin this line column sequence) = sequence.
Proof.
  destruct (input_map this) as [m|] eqn:Hm.
  - destruct (origin_linked this m line column sequence Hm) as [Hnone Hsome].
    destruct (truthy (op_source (originalPositionFor (pm_consumer m) line column)))
      eqn:Htruthy.
    + destruct (op_source (originalPositionFor (pm_consumer m) line column))
        as [source|] eqn:Hsrc; [|discriminate].
      destruct (Hsome source eq_refl Htruthy) as (resolved & _ & Hst & Hres).
      eexists. split; [exact Hres|exact Hst].
    + rewrite (Hnone eq_refl). by eexists.
  - unfold origin. rewrite Hm. by eexists.
Qed.

Lemma error_run (this : Input) (message : jsstring) (line column : Z) (opts : ErrorOpts)
    (sequence : N) (o : option (gmap string Prim)) :
  result (origin this line column sequence) = inr o ->
  result (error this message line column opts sequence) =
  inr (<["input" := VObj (asked_location this line column)]>
         (match o with
          | Some o =>
            CssSyntaxError_new message (field o "line") (field o "column") (field o "source")
              (field o "file") (str_or_undefined (opt_plugin opts))
          | None =>
            CssSyntaxError_new message (PNum line) (PNum column) (PStr (input_css this))
              (str_or_undefined (input_file this)) (str_or_undefined (opt_plugin opts))
          end)).
Proof.
  intros Ho. unfold error. rewrite (bind_ok _ _ _ _ Ho). cbn [result ret].
  unfold asked_location. destruct (input_file this) as [[|a f]|]; reflexivity.
Qed.

(** The run of [origin] on an input with a map, for a position whose
    original source the consumer names. *)
Lemma origin_mapped_run (this : Input) (m : PreviousMap) (line column : Z)
    (src : jsstring) (sequence : N) :
  input_map this = Some m ->
  op_source (originalPositionFor (pm_consumer m) line column) = Some src ->
  src <> [] ->
  exists o,
    origin this line column sequence =
      {| calls := [CallConsumer; CallOriginalPositionFor line column]
                  ++ (if is_url src then [] else [CallConsumer])
                  ++ [CallSourceContentFor src];
         result := inr (Some o);
         state := sequence |} /\
    delete "source" o =
      {[ "file" := PStr (if is_url src then src
                         else path_resolve [or_else (sourceRoot (pm_consumer m)) (js "."); src]);
         "line" := num_or_null (op_line (originalPositionFor (pm_consumer m) line column));
         "column" := num_or_null (op_column (originalPositionFor (pm_consumer m) line column)) ]} /\
    o !! "source" =
      (if truthy (sourceContentFor (pm_consumer m) src)
       then Some (PStr (default [] (sourceContentFor (pm_consumer m) src))) else None).
Proof.
  intros Hm Hsrc Hne. unfold origin. rewrite Hm.
  rewrite (bind_ok (consumer m) _ _ (pm_consumer m) eq_refl).
  cbn [consumer calls result state bind emit ret]. rewrite Hsrc.
  destruct src as [ | a s ]; [done|].
  pose proof (mapResolve_linked this m (a :: s) sequence Hm) as Hrun.
  assert (Hr : result (mapResolve this (a :: s) sequence)
               = inr (if is_url (a :: s) then a :: s
                      else path_resolve [or_else (sourceRoot (pm_consumer m)) (js "."); a :: s]))
    by (rewrite Hrun; by destruct (is_url (a :: s))).
  assert (Hst : state (mapResolve this (a :: s) sequence) = sequence)
    by (rewrite Hrun; by destruct (is_url (a :: s))).
  rewrite !(bind_ok _ _ _ _ Hr), Hst. rewrite Hrun.
  cbn [calls result state bind emit].
  destruct (is_url (a :: s)); cbn [calls result state app];
    destruct (sourceContentFor (pm_consumer m) (a :: s)) as [[ | b t ]|];
    cbn [calls result state ret app truthy default];
    eexists; (split; [reflexivity|]); split; reflexivity.
Qed.

(** C7: on an input without a map [origin] returns false and makes no call
    on any map; on an input with a map it returns false, after
    [consumer()] and [originalPositionFor] and without throwing, when the
    consumer names no original source for the position; otherwise it
    returns the position object: the source as [mapResolve] resolves it (a
    URL as it is, any other name against the source root of the map or
    the current directory), the line and the column the consumer gave, the
    content of the source when the consumer has a non-empty one, and
    nothing else, after the calls [consumer()], [originalPositionFor],
    [consumer()] again unless the source is a URL, and
    [sourceContentFor]. *)
Theorem origin_false_or_position (this : Input) (line column : Z) (sequence : N) :
  (input_map this = None ->
   origin this line column sequence = {| calls := []; result := inr None; state := sequence |}) /\
  (forall m, input_map this = Some m ->
     truthy (op_source (originalPositionFor (pm_consumer m) line column)) = false ->
     origin this line column sequence =
       {| calls := [CallConsumer; CallOriginalPositionFor line column];
          result := inr None; state := sequence |}) /\
  (forall m src, input_map this = Some m ->
     op_source (originalPositionFor (pm_consumer m) line column) = Some src ->
     src <> [] ->
     exists o,
       origin this line column sequence =
         {| calls := [CallConsumer; CallOriginalPositionFor line column]
                     ++ (if is_url src then [] else [CallConsumer])
                     ++ [CallSourceContentFor src];
            result := inr (Some o);
            state := sequence |} /\
       delete "source" o =
         {[ "file" := PStr (if is_url src then src
                            else path_resolve [or_else (sourceRoot (pm_consumer m)) (js "."); src]);
            "line" := num_or_null (op_line (originalPositionFor (pm_consumer m) line column));
            "column" :=
              num_or_null (op_column (originalPositionFor (pm_consumer m) line column)) ]} /\
       o !! "source" =
         (if truthy (sourceContentFor (pm_consumer m) src)
          then Some (PStr (default [] (sourceContentFor (pm_consumer m) src))) else None)).
Proof.
  repeat split.
  - intros Hm. unfold origin. rewrite Hm. reflexivity.
  - intros m Hm Hsrc. exact (proj1 (origin_linked this m line column sequence Hm) Hsrc).
  - intros m src Hm Hsrc Hne. by apply origin_mapped_run.
Qed.

(** C10: on an input without a map [mapResolve] throws a [TypeError] for
    every candidate that is no URL, and returns a URL as it is; on an input
    with a map a candidate that is no URL is resolved against the source
    root the consumer of the map declares. *)
Theorem mapResolve_needs_map (this : Input) (file : jsstring) (sequence : N) :
  (input_map this = None -> is_url file = false ->
   mapResolve this file sequence = {| calls := []; result := inl TypeError; state := sequence |}) /\
  (input_map this = None -> is_url file = true ->
   mapResolve this file sequence = {| calls := []; result := inr file; state := sequence |}) /\
  (forall m, input_map this = Some m -> is_url file = false ->
   mapResolve this file sequence =
   {| calls := [CallConsumer];
      result := inr (path_resolve [or_else (sourceRoot (pm_consumer m)) (js "."); file]);
      state := sequence |}).
Proof.
  repeat split.
  - apply mapResolve_unlinked.
  - intros _. apply mapResolve_url.
  - intros m Hm Hurl. by rewrite (mapResolve_linked this m file sequence Hm), Hurl.
Qed.

(** C8: for a candidate that is a URL, or a path that [path.resolve] gives
    back unchanged whatever it is resolved against, resolving the result of
    [mapResolve] again ends as the first call does; on an input with a map
    that result is the candidate itself, and a URL is returned as it is on
    every input. *)
Theorem mapResolve_idempotent (this : Input) (file : jsstring) (sequence : N) :
  is_url file = true \/ (forall root, path_resolve [root; file] = file) ->
  result ((r <- mapResolve this file ;; mapResolve this r) sequence) =
    result (mapResolve this file sequence) /\
  (forall m, input_map this = Some m -> result (mapResolve this file sequence) = inr file) /\
  (is_url file = true -> result (mapResolve this file sequence) = inr file).
Proof.
  intros Hfile.
  assert (Hurl : is_url file = true -> result (mapResolve this file sequence) = inr file).
  { intros Hurl. by rewrite mapResolve_url. }
  assert (Hlinked : forall m, input_map this = Some m ->
                      result (mapResolve this file sequence) = inr file).
  { intros m Hm. rewrite (mapResolve_linked this m file sequence Hm).
    destruct (is_url file) eqn:Hu; [done|]. destruct Hfile as [?|Hfix]; [done|].
    cbn. by rewrite Hfix. }
  split; [|by split].
  destruct (input_map this) as [m|] eqn:Hm.
  - rewrite (bind_ok _ _ _ _ (Hlinked m eq_refl)). cbn [result].
    destruct (mapResolve_returns this m file sequence Hm) as (r & _ & Hst).
    rewrite Hst. reflexivity.
  - destruct (is_url file) eqn:Hu.
    + rewrite (bind_ok _ _ _ _ (Hurl eq_refl)). cbn [result].
      by rewrite !mapResolve_url.
    + rewrite (bind_throw _ _ _ TypeError); by rewrite mapResolve_unlinked.
Qed.

(** C3, as the code has it: when the map of an input sends the generated
    position (2, 5) to line 10, column 3 of ["a.sass"], [mapResolve]
    resolves ["a.sass"] against the source root of the map, or the current
    directory when it has none, and [origin(2, 5)] returns an object with
    that file, line 10 and column 3, and no other field than the source
    text when the consumer has it; [error(message, 2, 5)] returns a
    diagnostic whose line and column are 10 and 3 and whose file is the
    resolved one, with the position asked about, line 2 and column 5,
    under the field [input]; the diagnostic has no field [generated]. *)
Theorem origin_and_error_mapped (this : Input) (m : PreviousMap) (message : jsstring)
    (opts : ErrorOpts) (sequence : N) :
  input_map this = Some m ->
  originalPositionFor (pm_consumer m) 2 5 =
    {| op_source := Some (js "a.sass"); op_line := Some 10%Z; op_column := Some 3%Z |} ->
  let resolved := path_resolve [or_else (sourceRoot (pm_consumer m)) (js "."); js "a.sass"] in
  exists o d g,
    result (mapResolve this (js "a.sass") sequence) = inr resolved /\
    result (origin this 2 5 sequence) = inr (Some o) /\
    delete "source" o =
      {[ "file" := PStr resolved; "line" := PNum 10; "column" := PNum 3 ]} /\
    o !! "source" =
      (if truthy (sourceContentFor (pm_consumer m) (js "a.sass"))
       then Some (PStr (default [] (sourceContentFor (pm_consumer m) (js "a.sass"))))
       else None) /\
    result (error this message 2 5 opts sequence) = inr d /\
    d !! "line" = Some (VPrim (PNum 10)) /\
    d !! "column" = Some (VPrim (PNum 3)) /\
    d !! "file" = (if truthy (Some resolved) then Some (VPrim (PStr resolved)) else None) /\
    d !! "generated" = None /\
    d !! "input" = Some (VObj g) /\
    g !! "line" = Some (PNum 2) /\
    g !! "column" = Some (PNum 5).
Proof.
  intros Hm Hpos resolved.
  destruct (origin_mapped_run this m 2 5 (js "a.sass") sequence Hm)
    as (o & Hrun & Hdel & Hsource); [by rewrite Hpos|done|].
  rewrite Hpos in Hdel. cbn [op_line op_column num_or_null] in Hdel.
  change (if is_url (js "a.sass") then _ else _) with resolved in Hdel.
  assert (Horigin : result (origin this 2 5 sequence) = inr (Some o)) by (by rewrite Hrun).
  assert (Hfields : field o "file" = PStr resolved /\ field o "line" = PNum 10
                    /\ field o "column" = PNum 3).
  { unfold field.
    rewrite <- !(lookup_delete_ne o "source") by done. rewrite Hdel. by repeat split. }
  destruct Hfields as (Hfile & Hline & Hcol).
  exists o. eexists _, (asked_location this 2 5).
  split. { rewrite (mapResolve_linked this m (js "a.sass") sequence Hm). reflexivity. }
  split; [exact Horigin|]. split; [exact Hdel|]. split; [exact Hsource|].
  split; [exact (error_run this message 2 5 opts sequence (Some o) Horigin)|].
  destruct (CssSyntaxError_new_fields message (field o "line") (field o "column")
              (field o "source") (field o "file") (str_or_undefined (opt_plugin opts)))
    as (_ & Hl & Hc & _ & _ & Hg).
  rewrite !lookup_insert_ne by done. rewrite lookup_insert_eq.
  split; [by rewrite Hl, Hline|]. split; [by rewrite Hc, Hcol|].
  split; [by rewrite CssSyntaxError_new_file, Hfile|].
  split; [exact Hg|]. split; [reflexivity|].
  unfold asked_location. destruct (truthy (input_file this)); split; reflexivity.
Qed.

(** C4, as the code has it: [error] always returns a diagnostic; the
    secondary location is attached under the field name [input], there is
    no field [generated], and the attached object is
    [{line, column, source}] with the position asked about and the text of
    the input, plus [file] when the input has one; the fields [message],
    [line], [column] and [source] are present. *)
Theorem error_attaches_input (this : Input) (message : jsstring) (line column : Z)
    (opts : ErrorOpts) (sequence : N) :
  exists d,
    result (error this message line column opts sequence) = inr d /\
    d !! "input" =
      Some (VObj
        ({[ "line" := PNum line; "column" := PNum column; "source" := PStr (input_css this) ]}
         ∪ (if truthy (input_file this)
            then {[ "file" := PStr (default [] (input_file this)) ]} else ∅))) /\
    d !! "generated" = None /\
    d !! "message" = Some (VPrim (PStr message)) /\
    is_Some (d !! "line") /\ is_Some (d !! "column") /\ is_Some (d !! "source").
Proof.
  destruct (origin_returns this line column sequence) as (o & Ho & _).
  eexists. split; [exact (error_run this message line column opts sequence o Ho)|].
  rewrite lookup_insert_eq. rewrite !lookup_insert_ne by done.
  split; [reflexivity|].
  destruct o as [o|];
    match goal with
    | |- context [CssSyntaxError_new ?a ?b ?c ?d ?e ?f] =>
      destruct (CssSyntaxError_new_fields a b c d e f) as (Hm & Hl & Hc & Hs & _ & Hg)
    end; rewrite Hm, Hl, Hc, Hs, Hg; repeat split; eauto.
Qed.

End InputFacts.

(** * Properties of terminal-highlight.js *)

(** ** Colour-control sequences *)

Lemma strip_plain (s rest : jsstring) :
  ESC ∉ s -> strip_ansi (s ++ rest) = s ++ strip_ansi rest.
Proof.
  unfold strip_ansi. induction s as [ | c s IH ]; intros Hs; [reflexivity|].
  apply not_elem_of_cons in Hs as [Hc Hs]. cbn.
  destruct (N.eqb_spec c ESC) as [->|_]; [done|]. by rewrite IH.
Qed.

(** ** Lines *)

(** Induction on a string, one or two characters at a time. *)
Lemma string_pair_ind (P : jsstring -> Prop) :
  P [] -> (forall c, P [c]) ->
  (forall c d r, P r -> P (d :: r) -> P (c :: d :: r)) ->
  forall s, P s.
Proof.
  intros Hnil Hone Hstep s.
  assert (Hboth : P s /\ forall c, P (c :: s)).
  { induction s as [ | d r [IHr IHdr] ]; [by split|].
    split; [apply IHdr|]. intros c. by apply Hstep. }
  apply Hboth.
Qed.

Lemma split_lines_step (c d : N) (r : jsstring) :
  split_lines (c :: d :: r) =
  if c =? 10 then [] :: split_lines (d :: r)
  else if (c =? 13) && (d =? 10) then [] :: split_lines r
  else push_front c (split_lines (d :: r)).
Proof. reflexivity. Qed.

Lemma crlf_to_lf_step (c d : N) (r : jsstring) :
  crlf_to_lf (c :: d :: r) =
  if (c =? 13) && (d =? 10) then 10 :: crlf_to_lf r else c :: crlf_to_lf (d :: r).
Proof. reflexivity. Qed.

Lemma has_crlf_step (c d : N) (r : jsstring) :
  has_crlf (c :: d :: r) = ((c =? 13) && (d =? 10)) || has_crlf (d :: r).
Proof. reflexivity. Qed.

Lemma split_lines_nonempty (s : jsstring) : split_lines s <> [].
Proof.
  induction s as [ | c | c d r IHr IHdr ] using string_pair_ind; [done| |].
  - cbn. by destruct (c =? 10).
  - rewrite split_lines_step. destruct (c =? 10); [done|].
    destruct ((c =? 13) && (d =? 10)); [done|].
    unfold push_front. by destruct (split_lines (d :: r)).
Qed.

Lemma join_cons (sep p : jsstring) (rest : list jsstring) :
  rest <> [] -> join sep (p :: rest) = p ++ sep ++ join sep rest.
Proof. by destruct rest. Qed.

Lemma join_push_front (sep : jsstring) (c : N) (parts : list jsstring) :
  parts <> [] -> join sep (push_front c parts) = c :: join sep parts.
Proof. destruct parts as [ | p [ | q rest ] ]; done. Qed.

Lemma join_split_lines (s : jsstring) : join [10] (split_lines s) = crlf_to_lf s.
Proof.
  induction s as [ | c | c d r IHr IHdr ] using string_pair_ind; [done| |].
  - cbn. by destruct (N.eqb_spec c 10) as [->|_].
  - rewrite split_lines_step, crlf_to_lf_step.
    destruct (N.eqb_spec c 10) as [->|Hc].
    { rewrite join_cons by apply split_lines_nonempty. by rewrite IHdr. }
    destruct ((c =? 13) && (d =? 10)).
    + rewrite join_cons by apply split_lines_nonempty. by rewrite IHr.
    + rewrite join_push_front by apply split_lines_nonempty. by rewrite IHdr.
Qed.

Lemma crlf_to_lf_id (s : jsstring) : has_crlf s = false -> crlf_to_lf s = s.
Proof.
  induction s as [ | c | c d r IHr IHdr ] using string_pair_ind; [done|done|].
  rewrite has_crlf_step, crlf_to_lf_step. intros [Hcd Hrest]%orb_false_elim.
  rewrite Hcd. by rewrite IHdr.
Qed.

Lemma has_crlf_app (a b : jsstring) :
  has_crlf (a ++ b) = false -> has_crlf a = false /\ has_crlf b = false.
Proof.
  induction a as [ | c | c d r IHr IHdr ] using string_pair_ind.
  - done.
  - destruct b as [ | d b ]; [done|]. cbn [app]. rewrite has_crlf_step.
    by intros [_ ?]%orb_false_elim.
  - cbn [app]. rewrite !has_crlf_step. intros [Hcd Hrest]%orb_false_elim.
    rewrite Hcd. cbn [orb]. apply IHdr, Hrest.
Qed.

Lemma has_crlf_concat (parts : list jsstring) :
  has_crlf (concat parts) = false -> Forall (fun p => has_crlf p = false) parts.
Proof.
  induction parts as [ | p parts IH ]; [constructor|].
  cbn [concat]. intros [Hp Hrest]%has_crlf_app. constructor; auto.
Qed.

Lemma has_crlf_tail (s : jsstring) : has_crlf s = false -> has_crlf (tail s) = false.
Proof.
  destruct s as [ | c [ | d r ] ]; [done|done|].
  rewrite has_crlf_step. cbn [tail]. by intros [_ ?]%orb_false_elim.
Qed.

Lemma split_lines_plain (s : jsstring) : ESC ∉ s -> Forall (fun p => ESC ∉ p) (split_lines s).
Proof.
  assert (Hnil : ESC ∉ @nil N) by apply not_elem_of_nil.
  assert (Hpush : forall c parts, ESC <> c -> Forall (fun p => ESC ∉ p) parts ->
                    Forall (fun p => ESC ∉ p) (push_front c parts)).
  { intros c [ | p parts ] Hc Hparts; cbn.
    - constructor; [|constructor]. by apply not_elem_of_cons.
    - apply Forall_cons in Hparts as [Hp Hparts]. constructor; [|done].
      by apply not_elem_of_cons. }
  induction s as [ | c | c d r IHr IHdr ] using string_pair_ind.
  - intros _. by repeat constructor.
  - intros [Hc _]%not_elem_of_cons. cbn. destruct (c =? 10); [by repeat constructor|].
    repeat constructor. by apply not_elem_of_cons.
  - intros [Hc Hdr]%not_elem_of_cons.
    pose proof Hdr as [_ Hr]%not_elem_of_cons.
    rewrite split_lines_step. destruct (c =? 10); [constructor; auto|].
    destruct ((c =? 13) && (d =? 10)); [constructor; auto|]. apply Hpush; auto.
Qed.

Section TerminalFacts.
Context `{Host} {Processor : Type} `{!Tokenizer Processor} `{Chalk}.

(** ** Classifying a token *)

Lemma endOfFile_false (s : Processor) (t : token) (r : list token) :
  pending s = t :: r -> endOfFile s = false.
Proof.
  intros Hp. destruct (endOfFile s) eqn:Heof; [|done].
  apply endOfFile_pending in Heof. by rewrite Hp in Heof.
Qed.

Lemma endOfFile_true (s : Processor) : pending s = [] -> endOfFile s = true.
Proof. apply endOfFile_pending. Qed.

Lemma processor_endOfFile_run (s : Processor) :
  processor_endOfFile s =
  {| calls := [CallEndOfFile]; result := inr (endOfFile s); state := s |}.
Proof. reflexivity. Qed.

Lemma processor_back_run (t : token) (s : Processor) :
  processor_back t s = {| calls := [CallBack t]; result := inr tt; state := back t s |}.
Proof. reflexivity. Qed.

Lemma processor_nextToken_run (s : Processor) (t : token) (r : list token) :
  pending s = t :: r ->
  calls (processor_nextToken s) = [CallNextToken] /\
  result (processor_nextToken s) = inr t /\
  pending (state (processor_nextToken s)) = r.
Proof.
  intros Hp. destruct (nextToken_pending s t r Hp) as (s' & Hnext & Hp').
  unfold processor_nextToken, bind, emit, get. cbn. rewrite Hnext. by cbn.
Qed.

(** One run of [getTokenType]: the category, the calls, and the tokens
    the stream has still to deliver afterwards. *)
Lemma getTokenType_run (tok : token) (s : Processor) :
  result (getTokenType tok s) = inr (classify tok (pending s)) /\
  pending (state (getTokenType tok s)) = pending s /\
  (calls (getTokenType tok s) = []
   \/ (calls (getTokenType tok s) = [CallEndOfFile] /\ pending s = [])
   \/ (exists next rest, pending s = next :: rest /\
         calls (getTokenType tok s) = [CallEndOfFile; CallNextToken; CallBack next])).
Proof.
  destruct tok as [type value]. unfold getTokenType, classify. cbn [fst snd].
  destruct (String.eqb type "word" && first_is 46 value); [by repeat split; left|].
  destruct (String.eqb type "word" && first_is 35 value); [by repeat split; left|].
  rewrite (bind_ok processor_endOfFile _ s (endOfFile s) eq_refl).
  rewrite processor_endOfFile_run. cbn [calls result state].
  destruct (pending s) as [ | next rest ] eqn:Hp.
  - rewrite (endOfFile_true s Hp). cbn.
    repeat split; [done|]. right; left. done.
  - rewrite (endOfFile_false s next rest Hp). cbn [negb].
    destruct (processor_nextToken_run s next rest Hp) as (Hcalls & Hres & Hp').
    rewrite (bind_ok _ _ _ _ Hres), Hcalls. cbn [calls result state].
    rewrite (bind_ok (processor_back next) _ _ tt eq_refl).
    rewrite processor_back_run. cbn [calls result state].
    destruct (String.eqb next.1 "brackets" || String.eqb next.1 "("); cbn [ret calls result state];
      rewrite back_pending, Hp'; repeat split; right; right; by eexists _, _.
Qed.

(** ** The loop *)

Lemma highlight_loop_run (fuel : nat) (acc : jsstring) (s : Processor) :
  (length (pending s) < fuel)%nat ->
  result (highlight_loop fuel acc s) = inr (acc ++ rendered (pending s)).
Proof.
  revert acc s. induction fuel as [ | fuel IH ]; intros acc s Hfuel; [lia|].
  cbn [highlight_loop].
  rewrite (bind_ok processor_endOfFile _ s (endOfFile s) eq_refl).
  rewrite processor_endOfFile_run. cbn [calls result state].
  destruct (pending s) as [ | tok following ] eqn:Hp.
  - rewrite (endOfFile_true s Hp). cbn. by rewrite app_nil_r.
  - rewrite (endOfFile_false s tok following Hp). cbn [negb].
    destruct (processor_nextToken_run s tok following Hp) as (_ & Hres & Hp1).
    rewrite (bind_ok _ _ _ _ Hres).
    set (s1 := state (processor_nextToken s)) in *.
    destruct (getTokenType_run tok s1) as (Hcat & Hp2 & _).
    rewrite (bind_ok _ _ _ _ Hcat).
    set (s2 := state (getTokenType tok s1)) in *.
    rewrite Hp1 in Hcat, Hp2 |- *. cbn [result rendered]. unfold piece.
    cbn [length] in Hfuel.
    destruct (HIGHLIGHT_THEME !! classify tok following) as [color|];
      rewrite IH by (rewrite Hp2; lia); by rewrite Hp2, app_assoc.
Qed.

Lemma strip_join (color : Color) (parts : list jsstring) (rest : jsstring) :
  Forall (fun p => ESC ∉ p) parts ->
  strip_ansi (join [10] (map (chalk color) parts) ++ rest) = join [10] parts ++ strip_ansi rest.
Proof.
  assert (Hlf : ESC ∉ [10]).
  { apply not_elem_of_cons. split; [done|apply not_elem_of_nil]. }
  induction parts as [ | p parts IH ]; intros Hparts; [reflexivity|].
  apply Forall_cons in Hparts as [Hp Hparts].
  destruct parts as [ | q parts ].
  - cbn. by apply chalk_strip.
  - change (map (chalk color) (p :: q :: parts))
      with (chalk color p :: map (chalk color) (q :: parts)).
    rewrite !join_cons by done. rewrite <- !app_assoc.
    rewrite chalk_strip by done. rewrite strip_plain by done. by rewrite IH.
Qed.

Lemma strip_rendered (toks : list token) :
  Forall (fun tok => ESC ∉ snd tok) toks -> strip_ansi (rendered toks) = shown toks.
Proof.
  induction toks as [ | tok following IH ]; intros Hplain; [reflexivity|].
  apply Forall_cons in Hplain as [Htok Hplain]. cbn [rendered shown]. unfold piece.
  destruct (HIGHLIGHT_THEME !! classify tok following) as [color|].
  - rewrite strip_join by (by apply split_lines_plain).
    by rewrite join_split_lines, IH.
  - by rewrite strip_plain, IH.
Qed.

Lemma shown_without_crlf (toks : list token) :
  has_crlf (concat (map snd toks)) = false -> shown toks = concat (map snd toks).
Proof.
  induction toks as [ | tok following IH ]; [reflexivity|].
  cbn [map concat shown]. intros [Htok Hrest]%has_crlf_app.
  rewrite IH by done. destruct (HIGHLIGHT_THEME !! _); [|done].
  by rewrite crlf_to_lf_id.
Qed.

Lemma values_plain (toks : list token) :
  ESC ∉ concat (map snd toks) -> Forall (fun tok => ESC ∉ snd tok) toks.
Proof.
  induction toks as [ | tok following IH ]; [constructor|].
  cbn [map concat]. intros [Htok Hrest]%not_elem_of_app. constructor; auto.
Qed.

Lemma strip_bom_plain (css : jsstring) : ESC ∉ css -> ESC ∉ snd (strip_bom css).
Proof.
  unfold strip_bom. destruct (_ || _); [|done].
  destruct css as [ | c css ]; [done|]. cbn. by intros [_ ?]%not_elem_of_cons.
Qed.

Lemma strip_bom_crlf (css : jsstring) :
  has_crlf css = false -> has_crlf (snd (strip_bom css)) = false.
Proof.
  unfold strip_bom. destruct (_ || _); [|done]. apply has_crlf_tail.
Qed.

(** C9: whatever the token and the stream, [getTokenType] returns a
    category and leaves the stream with the same tokens to deliver, hence
    the same answer to [endOfFile]; the calls it makes on the stream are
    none at all, or [endOfFile()] alone on an exhausted stream, or
    [endOfFile()], one [nextToken()] and at once [back] of the token that
    call delivered, whether that token is a parenthesis or not. *)
Theorem getTokenType_restores_stream (tok : token) (s : Processor) :
  exists category,
    result (getTokenType tok s) = inr category /\
    pending (state (getTokenType tok s)) = pending s /\
    endOfFile (state (getTokenType tok s)) = endOfFile s /\
    (calls (getTokenType tok s) = []
     \/ (calls (getTokenType tok s) = [CallEndOfFile] /\ pending s = [])
     \/ (exists next rest, pending s = next :: rest /\
           calls (getTokenType tok s) = [CallEndOfFile; CallNextToken; CallBack next])).
Proof.
  destruct (getTokenType_run tok s) as (Hres & Hp & Hcalls).
  exists (classify tok (pending s)). repeat split; [exact Hres|exact Hp| |exact Hcalls].
  destruct (pending s) as [ | next rest ] eqn:Hs.
  - by rewrite (endOfFile_true s Hs), (endOfFile_true _ Hp).
  - by rewrite (endOfFile_false s next rest Hs), (endOfFile_false _ next rest Hp).
Qed.

(** C2, as the code has it: a token of type [word] whose value starts with
    a dot is classified [class] without any call on the stream, whatever
    token follows, an opening parenthesis or a group of brackets
    included. *)
Theorem dot_word_is_class (value : jsstring) (s : Processor) :
  getTokenType ("word", 46 :: value) s = {| calls := []; result := inr "class"; state := s |}.
Proof. reflexivity. Qed.

(** C1, as the code has it: for a text without escape character the
    tokens of the stream made for the input of that text, whose values
    spell the text without its leading byte-order mark, are such that [terminalHighlight] with room for one iteration more
    than there are tokens returns a string which, stripped of its
    colour-control sequences, is the values of the tokens in order with
    ["\r\n"] turned into ["\n"] inside the coloured ones; when the text has
    no ["\r\n"] that is the text itself, up to its leading byte-order
    mark. *)
Theorem terminalHighlight_strip (css : jsstring) (sequence : N) :
  ESC ∉ css ->
  exists toks : list token,
    (forall input,
       result (Input_new (CssText css) {| opt_from := None; opt_map := None |} sequence)
       = inr input -> toks = pending (tokenizer input)) /\
    concat (map snd toks) = snd (strip_bom css) /\
    forall fuel, (length toks < fuel)%nat ->
      exists out,
        result (terminalHighlight fuel css sequence) = inr out /\
        strip_ansi out = shown toks /\
        (has_crlf css = false -> strip_ansi out = snd (strip_bom css)) /\
        (has_crlf css = false -> first_is 0xFEFF css || first_is 0xFFFE css = false ->
         strip_ansi out = css).
Proof.
  intros Hplain. unfold terminalHighlight.
  set (opts := {| opt_from := None; opt_map := None |}).
  destruct (Input_new_text (CssText css) css opts sequence eq_refl)
    as (input & Hinput & Hcss & _).
  exists (pending (tokenizer input)).
  pose proof (tokenizer_lossless input) as Hlossless. rewrite Hcss in Hlossless.
  split; [intros input' Hinput'; rewrite Hinput in Hinput'; by injection Hinput' as <-|].
  split; [exact Hlossless|]. intros fuel Hfuel.
  exists (rendered (pending (tokenizer input))).
  assert (Hstrip : strip_ansi (rendered (pending (tokenizer input)))
                   = shown (pending (tokenizer input))).
  { apply strip_rendered, values_plain. rewrite Hlossless. by apply strip_bom_plain. }
  assert (Hsame : has_crlf css = false ->
                  strip_ansi (rendered (pending (tokenizer input))) = snd (strip_bom css)).
  { intros Hcrlf. rewrite Hstrip, shown_without_crlf; [done|].
    rewrite Hlossless. by apply strip_bom_crlf. }
  split; [|split; [exact Hstrip|split; [exact Hsame|]]].
  - assert (Hrel : result (relabel (Ev' := MapCall + StreamCall) inl (Input_new (CssText css) opts) sequence)
                   = inr input) by exact Hinput.
    rewrite (bind_ok _ _ _ _ Hrel). cbn [result with_local relabel].
    by rewrite highlight_loop_run.
  - intros Hcrlf Hbom. rewrite (Hsame Hcrlf). unfold strip_bom. by rewrite Hbom.
Qed.

End TerminalFacts.

(** * The model at work on the reference collaborators *)

(** C1, a text on which the claim fails: the comment [/*a\r\nb*/] is one
    token, coloured, and comes back without its carriage return. *)
Lemma terminalHighlight_loses_cr :
  exists out,
    result (terminalHighlight (Tokenizer0 := comment_tokenizer) 2 comment_crlf 0)
    = inr out /\
    strip_ansi out = js "/*a" ++ [10] ++ js "b*/" /\
    strip_ansi out <> comment_crlf.
Proof. eexists. vm_compute. repeat split. discriminate. Qed.

(** The leading byte-order mark does not come back either. *)
Example terminalHighlight_loses_bom :
  value_shown (terminalHighlight (Tokenizer0 := word_tokenizer) 2 (0xFEFF :: js "a") 0)
  = Some (js "a").
Proof. reflexivity. Qed.

(** Nor does a colour-control sequence that was in the text. *)
Example terminalHighlight_loses_escape :
  value_shown (terminalHighlight (Tokenizer0 := comment_tokenizer) 2
                 (js "/*" ++ sgr 36 ++ js "*/") 0)
  = Some (js "/**/").
Proof. reflexivity. Qed.

(** C1 as amended, on a comment of two lines: it has no escape character,
    so the theorem applies to it. *)
Lemma terminalHighlight_strip_witness :
  (ESC ∉ js "/*a" ++ [10] ++ js "b*/") /\
  exists toks : list token,
    (forall input,
       result (Input_new (CssText (js "/*a" ++ [10] ++ js "b*/")) no_opts 0) = inr input ->
       toks = @pending _ _ comment_tokenizer (@tokenizer _ _ comment_tokenizer input)) /\
    concat (map snd toks) = snd (strip_bom (js "/*a" ++ [10] ++ js "b*/")) /\
    forall fuel, (length toks < fuel)%nat ->
      exists out,
        result (terminalHighlight (Tokenizer0 := comment_tokenizer) fuel
                  (js "/*a" ++ [10] ++ js "b*/") 0) = inr out /\
        strip_ansi out = shown toks /\
        (has_crlf (js "/*a" ++ [10] ++ js "b*/") = false ->
         strip_ansi out = snd (strip_bom (js "/*a" ++ [10] ++ js "b*/"))) /\
        (has_crlf (js "/*a" ++ [10] ++ js "b*/") = false ->
         first_is 0xFEFF (js "/*a" ++ [10] ++ js "b*/")
         || first_is 0xFFFE (js "/*a" ++ [10] ++ js "b*/") = false ->
         strip_ansi out = js "/*a" ++ [10] ++ js "b*/").
Proof.
  assert (Hplain : ESC ∉ js "/*a" ++ [10] ++ js "b*/")
    by (rewrite list_elem_of_In; cbn; intuition discriminate).
  split; [exact Hplain|].
  exact (terminalHighlight_strip (Tokenizer0 := comment_tokenizer)
           (js "/*a" ++ [10] ++ js "b*/") 0 Hplain).
Defined.

(** On that comment the loop does return the text, colour apart. *)
Example terminalHighlight_two_lines :
  value_shown (terminalHighlight (Tokenizer0 := comment_tokenizer) 2
                 (js "/*a" ++ [10] ++ js "b*/") 0)
  = Some (js "/*a" ++ [10] ++ js "b*/").
Proof. reflexivity. Qed.

(** C2, a token on which the claim fails: [.foo] before an opening
    parenthesis is classified [class], not [call]. *)
Lemma dot_word_before_parenthesis :
  result (getTokenType (Tokenizer0 := word_tokenizer) ("word", js ".foo") parenthesis_next)
  = inr "class" /\
  result (getTokenType (Tokenizer0 := word_tokenizer) ("word", js ".foo") parenthesis_next)
  <> inr "call".
Proof. split; [reflexivity|discriminate]. Qed.

(** C4, a diagnostic on which the claim fails: it has no field
    [generated]; the position asked about is under [input]. *)
Lemma error_has_no_generated_field :
  exists d,
    result (error plain_input (js "Unclosed block") 1 1 {| opt_plugin := None |} 0) = inr d /\
    d !! "generated" = None /\
    d !! "input" =
      Some (VObj {[ "line" := PNum 1; "column" := PNum 1; "source" := PStr (js "a{}") ]}).
Proof. eexists. repeat split. Qed.

(** C3, a diagnostic on which the claim fails: for the position the map
    of [sass_input] knows, the diagnostic has line 10 and column 3 but no
    field [generated]; line 2 and column 5 are under [input]. *)
Lemma mapped_error_has_no_generated_field :
  exists d,
    result (error sass_input (js "Unknown word") 2 5 {| opt_plugin := None |} 0) = inr d /\
    d !! "line" = Some (VPrim (PNum 10)) /\
    d !! "column" = Some (VPrim (PNum 3)) /\
    d !! "generated" = None /\
    d !! "input" =
      Some (VObj {[ "line" := PNum 2; "column" := PNum 5; "source" := PStr (js "a{}");
                    "file" := PStr (js "/cwd/a.css") ]}).
Proof. eexists. repeat split. Qed.

(** C3 as amended, on [sass_input]. *)
Lemma origin_and_error_mapped_witness :
  input_map sass_input = Some sass_map /\
  originalPositionFor (pm_consumer sass_map) 2 5 =
    {| op_source := Some (js "a.sass"); op_line := Some 10%Z; op_column := Some 3%Z |} /\
  exists o d g,
    result (mapResolve sass_input (js "a.sass") 0) = inr (js "/cwd/a.sass") /\
    result (origin sass_input 2 5 0) = inr (Some o) /\
    delete "source" o =
      {[ "file" := PStr (js "/cwd/a.sass"); "line" := PNum 10; "column" := PNum 3 ]} /\
    o !! "source" = None /\
    result (error sass_input (js "Unknown word") 2 5 {| opt_plugin := None |} 0) = inr d /\
    d !! "line" = Some (VPrim (PNum 10)) /\
    d !! "column" = Some (VPrim (PNum 3)) /\
    d !! "file" = Some (VPrim (PStr (js "/cwd/a.sass"))) /\
    d !! "generated" = None /\
    d !! "input" = Some (VObj g) /\
    g !! "line" = Some (PNum 2) /\
    g !! "column" = Some (PNum 5).
Proof.
  split; [reflexivity|]. split; [reflexivity|].
  exact (origin_and_error_mapped sass_input sass_map (js "Unknown word")
           {| opt_plugin := None |} 0 eq_refl eq_refl).
Defined.

(** C5 on a text with two leading byte-order marks: the second stays. *)
Lemma Input_new_bom_witness :
  exists this,
    result (Input_new (CssText [0xFEFF; 0xFEFF; 97]) no_opts 0) = inr this /\
    input_hasBOM this = true /\
    input_css this = [0xFEFF; 97].
Proof.
  destruct (Input_new_bom [0xFEFF; 0xFEFF; 97] no_opts 0) as (this & Hres & Hbom & _).
  exists this. split; [exact Hres|].
  exact (Hbom 0xFEFF [0xFEFF; 97] eq_refl (or_introl eq_refl)).
Defined.

(** C6 on three constructions without [from] and without map. *)
Lemma synthetic_ids_in_order_witness :
  exists inputs,
    result (construct_all
              [(CssText (js "a{}"), no_opts); (CssText (js "b{}"), no_opts);
               (CssObject (Some (js "c{}")) None, no_opts)] 0) = inr inputs /\
    input_id <$> inputs =
      [Some (js "<input css 1>"); Some (js "<input css 2>"); Some (js "<input css 3>")].
Proof.
  destruct (proj1 synthetic_ids_in_order
              [(CssText (js "a{}"), no_opts); (CssText (js "b{}"), no_opts);
               (CssObject (Some (js "c{}")) None, no_opts)])
    as (inputs & Hres & _ & Hids & _).
  - repeat constructor; eexists; repeat split.
  - exists inputs. split; [exact Hres|exact Hids].
Defined.

(** C7 on an input without map, and on [sass_input] at a position the map
    does not know and at one it knows. *)
Lemma origin_false_or_position_witness :
  origin plain_input 2 5 0 = {| calls := []; result := inr None; state := 0 |} /\
  origin sass_input 1 1 0 =
    {| calls := [CallConsumer; CallOriginalPositionFor 1 1]; result := inr None; state := 0 |} /\
  exists o,
    origin sass_input 2 5 0 =
      {| calls := [CallConsumer; CallOriginalPositionFor 2 5; CallConsumer;
                   CallSourceContentFor (js "a.sass")];
         result := inr (Some o);
         state := 0 |} /\
    delete "source" o =
      {[ "file" := PStr (js "/cwd/a.sass"); "line" := PNum 10; "column" := PNum 3 ]} /\
    o !! "source" = None.
Proof.
  split; [|split].
  - exact (proj1 (origin_false_or_position plain_input 2 5 0) eq_refl).
  - exact (proj1 (proj2 (origin_false_or_position sass_input 1 1 0)) sass_map eq_refl eq_refl).
  - exact (proj2 (proj2 (origin_false_or_position sass_input 2 5 0)) sass_map (js "a.sass")
             eq_refl eq_refl ltac:(discriminate)).
Defined.

(** C10 on an input without map, for a path and for a URL, and on
    [sass_input]. *)
Lemma mapResolve_needs_map_witness :
  mapResolve plain_input (js "a.sass") 0 =
    {| calls := []; result := inl TypeError; state := 0 |} /\
  mapResolve plain_input (js "https://example.org/a.sass") 0 =
    {| calls := []; result := inr (js "https://example.org/a.sass"); state := 0 |} /\
  mapResolve sass_input (js "a.sass") 0 =
    {| calls := [CallConsumer]; result := inr (js "/cwd/a.sass"); state := 0 |}.
Proof.
  split; [|split].
  - exact (proj1 (mapResolve_needs_map plain_input (js "a.sass") 0) eq_refl eq_refl).
  - exact (proj1 (proj2 (mapResolve_needs_map plain_input (js "https://example.org/a.sass") 0))
             eq_refl eq_refl).
  - exact (proj2 (proj2 (mapResolve_needs_map sass_input (js "a.sass") 0))
             sass_map eq_refl eq_refl).
Defined.

(** An absolute path is what the reference [path.resolve] returns for it,
    whatever the root. *)
Lemma posix_resolve_absolute (root : jsstring) :
  posix_resolve [root; js "/srv/site/a.css"] = js "/srv/site/a.css".
Proof. unfold posix_resolve. cbn. by destruct root. Qed.

(** C8 on [sass_input] and an absolute path. *)
Lemma mapResolve_idempotent_witness :
  (is_url (js "/srv/site/a.css") = true
   \/ forall root, path_resolve [root; js "/srv/site/a.css"] = js "/srv/site/a.css") /\
  result ((r <- mapResolve sass_input (js "/srv/site/a.css") ;; mapResolve sass_input r) 0) =
    result (mapResolve sass_input (js "/srv/site/a.css") 0) /\
  (forall m, input_map sass_input = Some m ->
     result (mapResolve sass_input (js "/srv/site/a.css") 0) = inr (js "/srv/site/a.css")) /\
  (is_url (js "/srv/site/a.css") = true ->
   result (mapResolve sass_input (js "/srv/site/a.css") 0) = inr (js "/srv/site/a.css")).
Proof.
  split; [right; exact posix_resolve_absolute|].
  exact (mapResolve_idempotent sass_input (js "/srv/site/a.css") 0
           (or_intror posix_resolve_absolute)).
Defined.

(** * Further properties of input.js *)

(** ** The URL pattern *)

Lemma starts_with_app (p rest : jsstring) : starts_with p (p ++ rest) = true.
Proof. induction p as [ | a p IH ]; [reflexivity|]. cbn. by rewrite N.eqb_refl. Qed.

Lemma starts_with_inv (p s : jsstring) :
  starts_with p s = true -> exists rest, s = p ++ rest.
Proof.
  revert s. induction p as [ | a p IH ]; intros s Hs; [by exists s|].
  destruct s as [ | b s ]; [discriminate|]. cbn in Hs.
  apply andb_true_iff in Hs as [Hab Hs]. apply N.eqb_eq in Hab as ->.
  destruct (IH s Hs) as (rest & ->). by exists rest.
Qed.

Lemma url_scheme_rest_inv (s : jsstring) :
  url_scheme_rest s = true ->
  exists word rest, Forall (fun c => is_word_char c = true) word /\ s = word ++ js "://" ++ rest.
Proof.
  induction s as [ | c s IH ]; [discriminate|]. cbn [url_scheme_rest].
  destruct (is_word_char c) eqn:Hc.
  - intros (word & rest & Hword & ->)%IH. exists (c :: word), rest. split; [by constructor|done].
  - intros (rest & Hrest)%starts_with_inv. exists [], rest. split; [constructor|done].
Qed.

Lemma url_scheme_rest_app (word rest : jsstring) :
  Forall (fun c => is_word_char c = true) word ->
  url_scheme_rest (word ++ js "://" ++ rest) = true.
Proof.
  induction word as [ | c word IH ]; intros Hword; [reflexivity|].
  apply Forall_cons in Hword as [Hc Hword]. cbn [app url_scheme_rest].
  rewrite Hc. by apply IH.
Qed.

(** X1: the pattern [/^\w+:\/\//] accepts exactly the strings that start
    with one or more of the characters [A-Za-z0-9_] followed by [://]. *)
Theorem is_url_scheme (s : jsstring) :
  is_url s = true <->
  exists scheme rest,
    scheme <> [] /\ Forall (fun c => is_word_char c = true) scheme /\
    s = scheme ++ js "://" ++ rest.
Proof.
  split.
  - destruct s as [ | c s ]; [discriminate|]. cbn [is_url].
    intros [Hc (word & rest & Hword & ->)%url_scheme_rest_inv]%andb_true_iff.
    exists (c :: word), rest. repeat split; [done|by constructor].
  - intros (scheme & rest & Hne & Hscheme & ->).
    destruct scheme as [ | c scheme ]; [done|].
    apply Forall_cons in Hscheme as [Hc Hscheme]. cbn [app is_url].
    rewrite Hc. by apply url_scheme_rest_app.
Qed.

(** ** The constructor, statement by statement *)

Lemma bind_result_inv {St Ev A B} (m : Js St Ev A) (k : A -> Js St Ev B) (s : St) (b : B) :
  result (bind m k s) = inr b ->
  exists a, result (m s) = inr a /\ result (k a (state (m s))) = inr b.
Proof.
  unfold bind. destruct (result (m s)) as [e|a] eqn:Hm; cbn; [discriminate|].
  intros Hk. by exists a.
Qed.

Lemma synthetic_id_truthy (n : N) : truthy (Some (synthetic_id n)) = true.
Proof. reflexivity. Qed.

Section InputMore.
Context `{Host}.

Lemma mapResolve_resolved (this : Input) (m : PreviousMap) (file : jsstring) (sequence : N) :
  input_map this = Some m ->
  result (mapResolve this file sequence) = inr (resolved_against (pm_consumer m) file) /\
  state (mapResolve this file sequence) = sequence.
Proof.
  intros Hm. rewrite (mapResolve_linked this m file sequence Hm). unfold resolved_against.
  by destruct (is_url file).
Qed.

(** The input after the statements on the previous map. *)
Lemma link_map_run (this : Input) (opts : Opts) (sequence : N) :
  let map := PreviousMap_new (input_css this) (opt_from opts) (opt_map opts) in
  state (link_map this opts sequence) = sequence /\
  result (link_map this opts sequence) =
  inr (if truthy (pm_text map) then
         if negb (truthy (input_file this)) && truthy (consumer_file (pm_consumer map))
         then set_file (set_map this (Some map))
                (Some (resolved_against (pm_consumer map)
                         (default [] (consumer_file (pm_consumer map)))))
         else set_map this (Some map)
       else this).
Proof.
  intros map. unfold link_map. fold map.
  destruct (truthy (pm_text map)); [|done].
  rewrite (bind_ok (consumer map) _ _ (pm_consumer map) eq_refl).
  cbn [set_map input_file consumer calls result state bind emit ret].
  destruct (negb (truthy (input_file this)) && truthy (consumer_file (pm_consumer map)));
    [|done].
  destruct (mapResolve_resolved (set_map this (Some map)) map
              (default [] (consumer_file (pm_consumer map))) sequence eq_refl) as [Hr Hst].
  rewrite (bind_ok _ _ _ _ Hr), Hst. done.
Qed.

(** The input after the statements on the identifier. *)
Lemma assign_id_run (this : Input) (sequence : N) :
  assign_id this sequence =
  if truthy (input_file this)
  then {| calls := []; result := inr this; state := sequence |}
  else {| calls := [];
          result := inr (set_id this (Some (synthetic_id (sequence + 1))));
          state := sequence + 1 |}.
Proof. unfold assign_id. by destruct (truthy (input_file this)). Qed.

(** The constructor on an argument that has a text: the three groups of
    statements one after the other. *)
Lemma Input_new_run (css : CssArg) (text : jsstring) (opts : Opts) (sequence : N) :
  css_toString css = inr text ->
  let this0 :=
    {| input_css := snd (strip_bom text); input_hasBOM := fst (strip_bom text);
       input_file := resolve_from (opt_from opts); input_id := None; input_map := None |} in
  exists this1,
    result (link_map this0 opts sequence) = inr this1 /\
    result (Input_new css opts sequence) =
      inr (label_map (if truthy (input_file this1) then this1
                      else set_id this1 (Some (synthetic_id (sequence + 1))))) /\
    state (Input_new css opts sequence) =
      (if truthy (input_file this1) then sequence else sequence + 1).
Proof.
  intros Htext this0. unfold Input_new. rewrite Htext.
  destruct (strip_bom text) as [hasBOM stored] eqn:Hbom. cbn [fst snd] in this0. cbv beta iota.
  fold this0.
  destruct (link_map_run this0 opts sequence) as [Hst Hres].
  match type of Hres with _ = inr ?t => set (this1 := t) in Hres end.
  exists this1. split; [exact Hres|].
  rewrite (bind_ok _ _ _ _ Hres), Hst. cbn [result state].
  pose proof (assign_id_run this1 sequence) as Hassign.
  destruct (truthy (input_file this1)).
  - rewrite (bind_ok (assign_id this1) _ sequence this1) by (by rewrite Hassign).
    by rewrite Hassign.
  - rewrite (bind_ok (assign_id this1) _ sequence
               (set_id this1 (Some (synthetic_id (sequence + 1)))))
      by (by rewrite Hassign).
    by rewrite Hassign.
Qed.

Lemma Input_new_cases (css : CssArg) (opts : Opts) (sequence : N) (this : Input) :
  result (Input_new css opts sequence) = inr this ->
  (truthy (input_file this) = true /\ input_id this = None /\
   state (Input_new css opts sequence) = sequence) \/
  (truthy (input_file this) = false /\
   input_id this = Some (synthetic_id (sequence + 1)) /\
   state (Input_new css opts sequence) = sequence + 1).
Proof.
  intros Hres. destruct (css_toString css) as [e|text] eqn:Hcss.
  { rewrite (Input_new_throws css e opts sequence Hcss) in Hres. discriminate. }
  destruct (Input_new_text css text opts sequence Hcss) as (this' & Hres' & _ & _ & _ & Hcases).
  rewrite Hres in Hres'. injection Hres' as <-. exact Hcases.
Qed.

(** X2: with a non-empty [from], the file of the input is [from] itself
    when it is a URL or an absolute path and [path.resolve(from)]
    otherwise, whatever a previous map says; when that file is not empty
    the input gets no identifier and the counter stays as it was. *)
Theorem Input_new_from (text from : jsstring) (mapopts : option MapOptions) (sequence : N) :
  from <> [] ->
  let opts := {| opt_from := Some from; opt_map := mapopts |} in
  let file := if is_url from || path_isAbsolute from then from else path_resolve [from] in
  file <> [] ->
  exists this,
    result (Input_new (CssText text) opts sequence) = inr this /\
    input_file this = Some file /\
    input_id this = None /\
    state (Input_new (CssText text) opts sequence) = sequence.
Proof.
  intros Hfrom opts file Hfile.
  destruct (Input_new_run (CssText text) text opts sequence eq_refl)
    as (this1 & Hlink & Hres & Hst).
  assert (Hfile0 : resolve_from (opt_from opts) = Some file).
  { unfold opts, file, resolve_from. cbn [opt_from]. destruct from as [ | c f ]; [done|].
    by destruct (is_url (c :: f) || path_isAbsolute (c :: f)). }
  assert (Htruthy : truthy (Some file) = true) by (by destruct file).
  assert (Hthis1 : input_file this1 = Some file /\ input_id this1 = None).
  { rewrite (proj2 (link_map_run _ opts sequence)) in Hlink. cbn [input_file input_css] in Hlink.
    rewrite Hfile0, Htruthy in Hlink. cbn [negb andb] in Hlink.
    by destruct (truthy (pm_text _)); injection Hlink as <-. }
  destruct Hthis1 as [Hfile1 Hid1].
  rewrite Hfile1, Htruthy in Hres, Hst.
  eexists. split; [exact Hres|]. destruct (label_map_fields this1) as (_ & _ & -> & ->).
  by repeat split.
Qed.

(** X3: without [from], when the previous map of the stored text has a
    text and its consumer names a file, the file of the input is that name
    as [mapResolve] resolves it: a URL as it is, any other name against the
    source root of the map or the current directory; when the result is
    not empty the input gets no identifier and the counter stays. *)
Theorem Input_new_file_from_map (text f : jsstring) (opts : Opts) (sequence : N) :
  truthy (opt_from opts) = false ->
  let map := PreviousMap_new (snd (strip_bom text)) (opt_from opts) (opt_map opts) in
  truthy (pm_text map) = true ->
  consumer_file (pm_consumer map) = Some f ->
  f <> [] ->
  resolved_against (pm_consumer map) f <> [] ->
  exists this,
    result (Input_new (CssText text) opts sequence) = inr this /\
    input_file this = Some (resolved_against (pm_consumer map) f) /\
    input_id this = None /\
    state (Input_new (CssText text) opts sequence) = sequence.
Proof.
  intros Hfrom map Htext Hf Hne Hresolved.
  destruct (Input_new_run (CssText text) text opts sequence eq_refl)
    as (this1 & Hlink & Hres & Hst).
  assert (Hfile0 : truthy (resolve_from (opt_from opts)) = false).
  { unfold resolve_from. by destruct (opt_from opts) as [[ | c g ]|]. }
  rewrite (proj2 (link_map_run _ opts sequence)) in Hlink. cbn [input_file input_css] in Hlink.
  fold map in Hlink. rewrite Htext, Hfile0, Hf in Hlink.
  replace (truthy (Some f)) with true in Hlink by (by destruct f).
  cbn [negb andb default] in Hlink. injection Hlink as <-.
  cbn [set_file input_file] in Hres, Hst.
  replace (truthy (Some (resolved_against (pm_consumer map) f))) with true in Hres, Hst
    by (by destruct (resolved_against (pm_consumer map) f)).
  eexists. split; [exact Hres|]. by rewrite Hst.
Qed.

(** X4: an input the constructor returns has a non-empty [from], which is
    its file when that is not empty and its identifier otherwise; it has
    an identifier exactly when it has no non-empty file; and it is linked
    to the previous map of its stored text exactly when that map has a
    text, the map then carrying [from] as its file. *)
Theorem Input_new_identity (css : CssArg) (opts : Opts) (sequence : N) (this : Input) :
  result (Input_new css opts sequence) = inr this ->
  truthy (from this) = true /\
  (truthy (input_file this) = true -> from this = input_file this /\ input_id this = None) /\
  (truthy (input_file this) = false ->
   from this = input_id this /\ input_id this = Some (synthetic_id (sequence + 1))) /\
  input_map this =
    (let map := PreviousMap_new (input_css this) (opt_from opts) (opt_map opts) in
     if truthy (pm_text map)
     then Some {| pm_text := pm_text map; pm_consumer := pm_consumer map; pm_file := from this |}
     else None).
Proof.
  intros Hthis.
  destruct (css_toString css) as [e|text] eqn:Hcss;
    [rewrite (Input_new_throws css e opts sequence Hcss) in Hthis; discriminate|].
  destruct (Input_new_run css text opts sequence Hcss) as (this1 & Hlink & Hres & _).
  rewrite Hres in Hthis. injection Hthis as <-.
  rewrite (proj2 (link_map_run _ opts sequence)) in Hlink. cbn [input_file input_css] in Hlink.
  set (map := PreviousMap_new (strip_bom text).2 (opt_from opts) (opt_map opts)) in *.
  assert (H1 : input_css this1 = (strip_bom text).2 /\ input_id this1 = None /\
               input_map this1 = if truthy (pm_text map) then Some map else None).
  { destruct (truthy (pm_text map)); [destruct (_ && _)|]; by injection Hlink as <-. }
  destruct H1 as (Hcss1 & Hid1 & Hmap1). clear Hlink.
  set (this2 := if truthy (input_file this1) then this1
                else set_id this1 (Some (synthetic_id (sequence + 1)))).
  assert (H2 : input_css this2 = (strip_bom text).2 /\
               input_file this2 = input_file this1 /\
               input_map this2 = input_map this1 /\
               input_id this2 = if truthy (input_file this1) then None
                                else Some (synthetic_id (sequence + 1))).
  { unfold this2. destruct (truthy (input_file this1)); by cbn. }
  destruct H2 as (Hcss2 & Hfile2 & Hmap2 & Hid2).
  destruct (label_map_fields this2) as (Lcss & _ & Lfile & Lid).
  assert (Hfrom : from (label_map this2) = from this2)
    by (unfold from; by rewrite Lfile, Lid).
  rewrite Hfrom, Lfile, Lid, Lcss, Hcss2. unfold from, js_or. rewrite Hfile2, Hid2.
  destruct (truthy (input_file this1)) eqn:Hf1.
  - repeat split; try done.
    unfold label_map. rewrite Hmap2, Hmap1. cbv zeta. fold map.
    destruct (truthy (pm_text map)); [|done]. cbn. unfold from, js_or.
    by rewrite Hfile2, Hid2, Hf1.
  - repeat split; try done.
    unfold label_map. rewrite Hmap2, Hmap1. cbv zeta. fold map.
    destruct (truthy (pm_text map)); [|done]. cbn. unfold from, js_or.
    by rewrite Hfile2, Hid2, Hf1.
Qed.

(** X5: whatever constructions are made one after the other, with or
    without file, when they all return the identifiers handed out are
    those of the next counter values in order, as many as the counter has
    advanced, no two the same; inputs with a file get none, so there are at
    most as many as constructions. *)
Theorem construct_all_identifiers (args : list (CssArg * Opts)) (sequence : N)
    (inputs : list Input) :
  result (construct_all args sequence) = inr inputs ->
  exists k : nat,
    state (construct_all args sequence) = sequence + N.of_nat k /\
    (k <= length args)%nat /\
    length inputs = length args /\
    omap input_id inputs = (fun j => synthetic_id (sequence + N.of_nat j)) <$> seq 1 k /\
    NoDup (omap input_id inputs).
Proof.
  assert (Hmain : forall args sequence inputs,
            result (construct_all args sequence) = inr inputs ->
            exists k : nat,
              state (construct_all args sequence) = sequence + N.of_nat k /\
              (k <= length args)%nat /\
              length inputs = length args /\
              omap input_id inputs =
                (fun j => synthetic_id (sequence + N.of_nat j)) <$> seq 1 k).
  { clear args sequence inputs.
    induction args as [ | [css opts] args IH ]; intros sequence inputs Hres.
    { injection Hres as <-. exists 0%nat. cbn. repeat split; lia. }
    cbn [construct_all] in Hres |- *.
    apply bind_result_inv in Hres as (this & Hthis & Hres).
    apply bind_result_inv in Hres as (rest & Hrest & Hres).
    injection Hres as <-.
    rewrite (bind_ok _ _ _ _ Hthis). cbn [state].
    rewrite (bind_ok _ _ _ _ Hrest). cbn [state ret].
    destruct (IH _ _ Hrest) as (k & Hst & Hk & Hlen & Hids). rewrite Hst.
    destruct (Input_new_cases css opts sequence this Hthis)
      as [(_ & Hid & Hseq)|(_ & Hid & Hseq)]; rewrite Hseq in Hids |- *.
    - exists k. cbn [length omap list_omap]. fold (omap input_id rest). rewrite Hid.
      repeat split; [lia|lia|exact Hids].
    - exists (S k). cbn [length omap list_omap]. fold (omap input_id rest). rewrite Hid.
      repeat split; [lia|lia|lia|].
      cbn [seq]. rewrite fmap_cons, Hids. f_equal.
      replace (seq 2 k) with (S <$> seq 1 k) by apply fmap_S_seq.
      rewrite <- list_fmap_compose. apply list_fmap_ext.
      intros _ j _. unfold compose. f_equal. lia. }
  intros Hres. destruct (Hmain args sequence inputs Hres) as (k & Hst & Hk & Hlen & Hids).
  exists k. repeat split; try done.
  rewrite Hids. apply NoDup_fmap_2; [|apply NoDup_seq].
  intros i j Heq. apply synthetic_id_inj in Heq. lia.
Qed.

(** X6: the constructor refuses a null and an object without [toString]
    with the error of line 22, whose message names the argument as the
    template literal prints it, and ends in a [TypeError] for undefined and
    for an object it cannot print; in each case before any call on a map
    and without taking an identifier.  So a run of constructions that
    reaches such an argument ends with that exception, the counter and the
    calls on maps being exactly what the constructions before it left. *)
Theorem construct_all_refused (before after : list (CssArg * Opts)) (css : CssArg)
    (opts : Opts) (e : Exn) (sequence : N) (inputs : list Input) :
  result (construct_all before sequence) = inr inputs ->
  (css = CssNull /\ e = InvalidInput (js "PostCSS received null instead of CSS string")) \/
  (css = CssUndefined /\ e = TypeError) \/
  (exists v, css = CssObject None (Some v) /\
             e = InvalidInput (js "PostCSS received " ++ v ++ js " instead of CSS string")) \/
  (css = CssObject None None /\ e = TypeError) ->
  Input_new css opts sequence = {| calls := []; result := inl e; state := sequence |} /\
  result (construct_all (before ++ (css, opts) :: after) sequence) = inl e /\
  state (construct_all (before ++ (css, opts) :: after) sequence)
    = state (construct_all before sequence) /\
  calls (construct_all (before ++ (css, opts) :: after) sequence)
    = calls (construct_all before sequence).
Proof.
  intros Hbefore Hcss.
  assert (Hrefused : css_toString css = inl e).
  { destruct Hcss as [[-> ->]|[[-> ->]|[(v & -> & ->)|[-> ->]]]]; reflexivity. }
  clear Hcss.
  assert (Hthrow : forall s, Input_new css opts s = {| calls := []; result := inl e; state := s |})
    by (intros s; by apply Input_new_throws).
  split; [apply Hthrow|].
  revert sequence inputs Hbefore.
  induction before as [ | [css0 opts0] before IH ]; intros sequence inputs Hbefore.
  - cbn [app construct_all]. rewrite (bind_throw _ _ _ e) by (by rewrite Hthrow).
    by rewrite Hthrow.
  - cbn [app construct_all] in Hbefore |- *.
    apply bind_result_inv in Hbefore as (this & Hthis & Hrest).
    apply bind_result_inv in Hrest as (rest & Hrest & _).
    destruct (IH _ _ Hrest) as (Hres & Hst & Hcalls).
    rewrite !(bind_ok _ _ _ _ Hthis). cbn [calls result state].
    rewrite (bind_throw _ _ _ e) by exact Hres.
    rewrite (bind_ok _ _ _ _ Hrest). cbn [calls result state ret].
    by rewrite Hst, Hcalls, app_nil_r.
Qed.

(** ** Diagnostics *)

(** X7: when [origin] finds no original position, because the input has
    no map or because the map does not know the position, the diagnostic
    of [error] has the line and the column it was asked about, the text of
    the input as source, and the file of the input when that is not
    empty. *)
Theorem error_without_origin (this : Input) (message : jsstring) (line column : Z)
    (opts : ErrorOpts) (sequence : N) :
  result (origin this line column sequence) = inr None ->
  exists d,
    result (error this message line column opts sequence) = inr d /\
    d !! "message" = Some (VPrim (PStr message)) /\
    d !! "line" = Some (VPrim (PNum line)) /\
    d !! "column" = Some (VPrim (PNum column)) /\
    d !! "source" = Some (VPrim (PStr (input_css this))) /\
    d !! "file" = (if truthy (input_file this)
                   then Some (VPrim (PStr (default [] (input_file this)))) else None).
Proof.
  intros Horigin. eexists.
  split; [exact (error_run this message line column opts sequence None Horigin)|].
  rewrite !lookup_insert_ne by done.
  destruct (CssSyntaxError_new_fields message (PNum line) (PNum column)
              (PStr (input_css this)) (str_or_undefined (input_file this))
              (str_or_undefined (opt_plugin opts))) as (Hm & Hl & Hc & Hs & _).
  rewrite CssSyntaxError_new_file.
  repeat split; try done. by destruct (input_file this) as [[ | c f ]|].
Qed.

(** X9: on an input with a map, for a position whose original source the
    consumer names, [origin] calls [consumer()] and [originalPositionFor]
    once with that position, [consumer()] again unless the source is a
    URL, and [sourceContentFor] once with the source; it returns the
    source as [mapResolve] resolves it, the line and the column the
    consumer gave, and the content of the source when the consumer has a
    non-empty one, and nothing else. *)
Theorem origin_mapped_position (this : Input) (m : PreviousMap) (line column : Z)
    (src : jsstring) (sequence : N) :
  input_map this = Some m ->
  op_source (originalPositionFor (pm_consumer m) line column) = Some src ->
  src <> [] ->
  let c := pm_consumer m in
  let position := originalPositionFor c line column in
  exists o,
    origin this line column sequence =
      {| calls := [CallConsumer; CallOriginalPositionFor line column]
                  ++ (if is_url src then [] else [CallConsumer])
                  ++ [CallSourceContentFor src];
         result := inr (Some o);
         state := sequence |} /\
    delete "source" o =
      {[ "file" := PStr (resolved_against c src);
         "line" := num_or_null (op_line position);
         "column" := num_or_null (op_column position) ]} /\
    o !! "source" = (if truthy (sourceContentFor c src)
                     then Some (PStr (default [] (sourceContentFor c src))) else None).
Proof.
  intros Hm Hsrc Hne. cbv zeta. unfold origin. rewrite Hm.
  rewrite (bind_ok (consumer m) _ _ (pm_consumer m) eq_refl).
  cbn [consumer calls result state bind emit ret]. rewrite Hsrc.
  destruct src as [ | a s ]; [done|].
  destruct (mapResolve_resolved this m (a :: s) sequence Hm) as [Hr Hst].
  rewrite !(bind_ok _ _ _ _ Hr), Hst.
  rewrite (mapResolve_linked this m (a :: s) sequence Hm).
  cbn [calls result state bind emit]. unfold resolved_against.
  destruct (is_url (a :: s)); cbn [calls result state app];
    destruct (sourceContentFor (pm_consumer m) (a :: s)) as [[ | b t ]|];
    cbn [calls result state ret app truthy default];
    eexists; (split; [reflexivity|]); split; reflexivity.
Qed.

End InputMore.

(** * Further properties of terminal-highlight.js *)

(** ** Lines *)

Lemma push_front_length (c : N) (parts : list jsstring) :
  parts <> [] -> length (push_front c parts) = length parts.
Proof. by destruct parts. Qed.

Lemma split_lines_length (s : jsstring) :
  length (split_lines s) = S (length (filter (fun c => c = 10) s)).
Proof.
  induction s as [ | c | c d r IHr IHdr ] using string_pair_ind; [done| |].
  - cbn [split_lines]. destruct (N.eqb_spec c 10) as [->|Hc]; [done|].
    rewrite filter_cons_False by done. done.
  - rewrite split_lines_step.
    destruct (N.eqb_spec c 10) as [->|Hc].
    { rewrite filter_cons_True by done. cbn [length]. by rewrite IHdr. }
    rewrite (filter_cons_False _ c) by done.
    destruct (N.eqb_spec c 13) as [->|Hc13]; cbn [andb].
    + destruct (N.eqb_spec d 10) as [->|Hd].
      * rewrite filter_cons_True by done. cbn [length]. by rewrite IHr.
      * rewrite push_front_length by apply split_lines_nonempty. exact IHdr.
    + rewrite push_front_length by apply split_lines_nonempty. exact IHdr.
Qed.

Lemma split_lines_no_lf (s : jsstring) : Forall (fun p => 10 ∉ p) (split_lines s).
Proof.
  assert (Hnil : 10 ∉ @nil N) by apply not_elem_of_nil.
  assert (Hpush : forall c parts, 10 <> c -> Forall (fun p => 10 ∉ p) parts ->
                    Forall (fun p => 10 ∉ p) (push_front c parts)).
  { intros c [ | p parts ] Hc Hparts; cbn.
    - constructor; [|constructor]. by apply not_elem_of_cons.
    - apply Forall_cons in Hparts as [Hp Hparts]. constructor; [|done].
      by apply not_elem_of_cons. }
  induction s as [ | c | c d r IHr IHdr ] using string_pair_ind.
  - by repeat constructor.
  - cbn [split_lines]. destruct (N.eqb_spec c 10) as [->|Hc]; [by repeat constructor|].
    apply Hpush; [done|by repeat constructor].
  - rewrite split_lines_step. destruct (N.eqb_spec c 10) as [->|Hc]; [by constructor|].
    destruct ((c =? 13) && (d =? 10)); [by constructor|]. by apply Hpush.
Qed.

(** X10: splitting a value on [/\r?\n/] gives one part more than the
    value has line feeds, and no part contains a line feed; joining the
    parts with ["\n"] gives the value with each ["\r\n"] turned into
    ["\n"], hence the value itself when it has no ["\r\n"]. *)
Theorem split_lines_join (s : jsstring) :
  length (split_lines s) = S (length (filter (fun c => c = 10) s)) /\
  Forall (fun p => 10 ∉ p) (split_lines s) /\
  join [10] (split_lines s) = crlf_to_lf s /\
  (has_crlf s = false -> join [10] (split_lines s) = s).
Proof.
  repeat split.
  - apply split_lines_length.
  - apply split_lines_no_lf.
  - apply join_split_lines.
  - intros Hcrlf. by rewrite join_split_lines, crlf_to_lf_id.
Qed.

Section TerminalMore.
Context `{Host} {Processor : Type} `{!Tokenizer Processor} `{Chalk}.

(** ** The classifier *)

(** X11: a word that starts with a hash is classified [hash]; any other
    token that is not a word starting with a dot, whatever its type, is
    classified [call] when the next token of the stream is an opening
    parenthesis or a group of brackets, and keeps its own type when the
    stream is exhausted or the next token is anything else. *)
Theorem getTokenType_category (type : string) (value : jsstring) (s : Processor) :
  (type = "word" -> first_is 35 value = true ->
   result (getTokenType (type, value) s) = inr "hash") /\
  (is_selector_word (type, value) = false ->
   forall next rest, pending s = next :: rest ->
     fst next = "brackets" \/ fst next = "(" ->
     result (getTokenType (type, value) s) = inr "call") /\
  (is_selector_word (type, value) = false ->
   pending s = [] \/
   (exists next rest, pending s = next :: rest /\ fst next <> "brackets" /\ fst next <> "(") ->
   result (getTokenType (type, value) s) = inr type).
Proof.
  rewrite (proj1 (getTokenType_run (type, value) s)). unfold classify, is_selector_word.
  cbn [fst snd]. repeat split.
  - intros -> Hhash. cbn [String.eqb Ascii.eqb Bool.eqb andb]. rewrite Hhash.
    destruct value as [ | c v ]; [done|]. cbn in Hhash |- *.
    apply N.eqb_eq in Hhash as ->. reflexivity.
  - intros Hsel next rest -> Hnext.
    rewrite andb_orb_distrib_r in Hsel. apply orb_false_elim in Hsel as [-> ->].
    destruct Hnext as [-> | ->]; reflexivity.
  - intros Hsel Hp.
    rewrite andb_orb_distrib_r in Hsel. apply orb_false_elim in Hsel as [-> ->].
    destruct Hp as [-> | (next & rest & -> & Hb & Hp)]; [reflexivity|].
    apply String.eqb_neq in Hb, Hp. by rewrite Hb, Hp.
Qed.

(** X12: [getTokenType] makes no call on the stream for a word that starts
    with a dot or a hash; for any other token it asks [endOfFile()], and
    when the stream is not exhausted it takes the next token and gives it
    back at once. *)
Theorem getTokenType_calls (tok : token) (s : Processor) :
  calls (getTokenType tok s) =
  if is_selector_word tok then []
  else match pending s with
       | [] => [CallEndOfFile]
       | next :: _ => [CallEndOfFile; CallNextToken; CallBack next]
       end.
Proof.
  destruct tok as [type value]. unfold getTokenType, is_selector_word. cbn [fst snd].
  rewrite andb_orb_distrib_r.
  destruct (String.eqb type "word" && first_is 46 value); [reflexivity|].
  destruct (String.eqb type "word" && first_is 35 value); [reflexivity|]. cbn [orb].
  rewrite (bind_ok processor_endOfFile _ s (endOfFile s) eq_refl).
  rewrite processor_endOfFile_run. cbn [calls result state].
  destruct (pending s) as [ | next rest ] eqn:Hp.
  - by rewrite (endOfFile_true s Hp).
  - rewrite (endOfFile_false s next rest Hp). cbn [negb].
    destruct (processor_nextToken_run s next rest Hp) as (Hcalls & Hres & Hp').
    rewrite (bind_ok _ _ _ _ Hres), Hcalls. cbn [calls result state].
    rewrite (bind_ok (processor_back next) _ _ tt eq_refl).
    rewrite processor_back_run. cbn [calls result state].
    by destruct (String.eqb next.1 "brackets" || String.eqb next.1 "(").
Qed.

(** ** The loop *)

Lemma rendered_uncoloured (toks : list token) :
  uncoloured toks = true -> rendered toks = concat (map snd toks).
Proof.
  induction toks as [ | tok following IH ]; [reflexivity|].
  cbn [uncoloured rendered map concat]. unfold piece.
  destruct (HIGHLIGHT_THEME !! classify tok following); [discriminate|].
  intros Hrest. by rewrite IH.
Qed.

Lemma terminalHighlight_run (fuel : nat) (css : jsstring) (sequence : N) (input : Input) :
  result (Input_new (CssText css) {| opt_from := None; opt_map := None |} sequence)
  = inr input ->
  result (terminalHighlight fuel css sequence) =
    result (highlight_loop fuel [] (tokenizer input)) /\
  state (terminalHighlight fuel css sequence) =
    state (Input_new (CssText css) {| opt_from := None; opt_map := None |} sequence).
Proof.
  intros Hinput. unfold terminalHighlight.
  assert (Hrel : result (relabel (Ev' := MapCall + StreamCall) inl
                           (Input_new (CssText css) {| opt_from := None; opt_map := None |})
                           sequence) = inr input) by exact Hinput.
  by rewrite (bind_ok _ _ _ _ Hrel).
Qed.

(** X13: for every text, with or without escape characters, once the
    bound on the iterations exceeds the number of tokens of the stream
    [terminalHighlight] returns a string: the loop never reads a token from
    an exhausted stream. *)
Theorem terminalHighlight_returns (css : jsstring) (sequence : N) :
  exists input,
    result (Input_new (CssText css) {| opt_from := None; opt_map := None |} sequence)
    = inr input /\
    forall fuel, (length (pending (tokenizer input)) < fuel)%nat ->
      exists out, result (terminalHighlight fuel css sequence) = inr out.
Proof.
  destruct (Input_new_text (CssText css) css {| opt_from := None; opt_map := None |}
              sequence eq_refl) as (input & Hinput & _).
  exists input. split; [exact Hinput|]. intros fuel Hfuel.
  rewrite (proj1 (terminalHighlight_run fuel css sequence input Hinput)).
  rewrite highlight_loop_run by done. by eexists.
Qed.

(** X14: when no token of the stream gets a colour, [terminalHighlight]
    returns the stored text of the input as it is, that is the text without
    one leading byte-order mark, whatever [chalk] does and whatever line
    ends the text has. *)
Theorem terminalHighlight_uncoloured (css : jsstring) (sequence : N) (input : Input) :
  result (Input_new (CssText css) {| opt_from := None; opt_map := None |} sequence)
  = inr input ->
  uncoloured (pending (tokenizer input)) = true ->
  forall fuel, (length (pending (tokenizer input)) < fuel)%nat ->
    result (terminalHighlight fuel css sequence) = inr (snd (strip_bom css)).
Proof.
  intros Hinput Hplain fuel Hfuel.
  rewrite (proj1 (terminalHighlight_run fuel css sequence input Hinput)).
  rewrite highlight_loop_run by done. cbn [app].
  rewrite rendered_uncoloured by done. rewrite tokenizer_lossless.
  destruct (Input_new_text (CssText css) css {| opt_from := None; opt_map := None |}
              sequence eq_refl) as (input' & Hinput' & Hcss & _).
  rewrite Hinput in Hinput'. injection Hinput' as <-. by rewrite Hcss.
Qed.

(** X15: [terminalHighlight] constructs an input without [from], so it
    advances the counter of identifiers by one, whatever the bound on the
    loop, unless the previous map of the text names a file; it never
    advances it by more. *)
Theorem terminalHighlight_takes_identifier (fuel : nat) (css : jsstring) (sequence : N) :
  (state (terminalHighlight fuel css sequence) = sequence \/
   state (terminalHighlight fuel css sequence) = sequence + 1) /\
  (map_names_file (snd (strip_bom css)) {| opt_from := None; opt_map := None |} = false ->
   state (terminalHighlight fuel css sequence) = sequence + 1).
Proof.
  destruct (Input_new_text (CssText css) css {| opt_from := None; opt_map := None |}
              sequence eq_refl) as (input & Hinput & _ & _ & Hfile & Hcases).
  rewrite (proj2 (terminalHighlight_run fuel css sequence input Hinput)). split.
  - destruct Hcases as [(_ & _ & ->)|(_ & _ & ->)]; auto.
  - intros Hmap. specialize (Hfile eq_refl Hmap).
    destruct Hcases as [(Htrue & _)|(_ & _ & ->)]; [by rewrite Hfile in Htrue|done].
Qed.

End TerminalMore.

(** * The further properties on the reference collaborators *)

(** X2 on a relative [from]. *)
Lemma Input_new_from_witness :
  exists this,
    result (Input_new (CssText (js "a{}")) {| opt_from := Some (js "a.css"); opt_map := None |} 4)
    = inr this /\
    input_file this = Some (js "/cwd/a.css") /\
    input_id this = None /\
    state (Input_new (CssText (js "a{}")) {| opt_from := Some (js "a.css"); opt_map := None |} 4)
    = 4.
Proof.
  exact (Input_new_from (js "a{}") (js "a.css") None 4 ltac:(discriminate) ltac:(discriminate)).
Defined.

(** X3 on the host whose texts carry a map that names [out.css]. *)
Lemma Input_new_file_from_map_witness :
  exists this,
    result (Input_new (H := mapped_host) (CssText (js "a{}")) (@Build_Opts mapped_host None None) 4)
    = inr this /\
    input_file this = Some (js "/srv/site/out.css") /\
    input_id this = None /\
    state (Input_new (H := mapped_host) (CssText (js "a{}")) (@Build_Opts mapped_host None None) 4)
    = 4.
Proof.
  exact (Input_new_file_from_map (H := mapped_host) (js "a{}") (js "out.css")
           (@Build_Opts mapped_host None None) 4 eq_refl eq_refl eq_refl
           ltac:(discriminate) ltac:(discriminate)).
Defined.

(** X4 on the first input without file of a process. *)
Lemma Input_new_identity_witness :
  result (Input_new (CssText (js "a{}")) no_opts 0) = inr plain_input /\
  truthy (from plain_input) = true /\
  from plain_input = input_id plain_input.
Proof.
  split; [reflexivity|].
  destruct (Input_new_identity (CssText (js "a{}")) no_opts 0 plain_input eq_refl)
    as (Hfrom & _ & Hid & _).
  split; [exact Hfrom|exact (proj1 (Hid eq_refl))].
Defined.

(** X5 on three constructions, the second with a [from]. *)
Lemma construct_all_identifiers_witness :
  exists inputs,
    result (construct_all
              [(CssText (js "a{}"), no_opts);
               (CssText (js "b{}"), {| opt_from := Some (js "/srv/b.css"); opt_map := None |});
               (CssText (js "c{}"), no_opts)] 0) = inr inputs /\
    omap input_id inputs = [js "<input css 1>"; js "<input css 2>"].
Proof.
  eexists. split; [reflexivity|].
  edestruct (construct_all_identifiers
               [(CssText (js "a{}"), no_opts);
                (CssText (js "b{}"), {| opt_from := Some (js "/srv/b.css"); opt_map := None |});
                (CssText (js "c{}"), no_opts)] 0) as (k & Hst & _ & _ & Hids & _);
    [reflexivity|].
  assert (Hk : k = 2%nat) by (change (2 = N.of_nat k) in Hst; lia). subst k. exact Hids.
Defined.

(** X6 on a null between two texts: the run ends with the error of
    line 22, and the counter has counted the first text only. *)
Lemma construct_all_refused_witness :
  result (construct_all
            [(CssText (js "a{}"), no_opts); (CssNull, no_opts); (CssText (js "b{}"), no_opts)] 0)
  = inl (InvalidInput (js "PostCSS received null instead of CSS string")) /\
  state (construct_all
           [(CssText (js "a{}"), no_opts); (CssNull, no_opts); (CssText (js "b{}"), no_opts)] 0)
  = 1.
Proof.
  destruct (construct_all_refused [(CssText (js "a{}"), no_opts)]
              [(CssText (js "b{}"), no_opts)] CssNull no_opts
              (InvalidInput (js "PostCSS received null instead of CSS string")) 0 _
              eq_refl (or_introl (conj eq_refl eq_refl)))
    as (_ & Hres & Hst & _).
  split; [exact Hres|exact Hst].
Defined.

(** X7 on an input without map. *)
Lemma error_without_origin_witness :
  exists d,
    result (error plain_input (js "Unknown word") 3 4 {| opt_plugin := None |} 0) = inr d /\
    d !! "message" = Some (VPrim (PStr (js "Unknown word"))) /\
    d !! "line" = Some (VPrim (PNum 3)) /\
    d !! "column" = Some (VPrim (PNum 4)) /\
    d !! "source" = Some (VPrim (PStr (js "a{}"))) /\
    d !! "file" = None.
Proof.
  exact (error_without_origin plain_input (js "Unknown word") 3 4 {| opt_plugin := None |} 0
           eq_refl).
Defined.

(** X9 on [sass_input] at the position its map knows. *)
Lemma origin_mapped_position_witness :
  exists o,
    origin sass_input 2 5 0 =
      {| calls := [CallConsumer; CallOriginalPositionFor 2 5; CallConsumer;
                   CallSourceContentFor (js "a.sass")];
         result := inr (Some o);
         state := 0 |} /\
    delete "source" o =
      {[ "file" := PStr (js "/cwd/a.sass"); "line" := PNum 10; "column" := PNum 3 ]} /\
    o !! "source" = None.
Proof.
  exact (origin_mapped_position sass_input sass_map 2 5 (js "a.sass") 0 eq_refl eq_refl
           ltac:(discriminate)).
Defined.

(** X11 on a function name before an opening parenthesis, and on a word at
    the end of the stream. *)
Lemma getTokenType_category_witness :
  result (getTokenType (Tokenizer0 := word_tokenizer) ("word", js "url") parenthesis_next)
  = inr "call" /\
  result (getTokenType (Tokenizer0 := word_tokenizer) ("word", js "url")
            {| returned := []; unread := [] |})
  = inr "word".
Proof.
  split.
  - exact (proj1 (proj2 (getTokenType_category (Tokenizer0 := word_tokenizer)
                           "word" (js "url") parenthesis_next))
             eq_refl ("(", js "(") _ eq_refl (or_intror eq_refl)).
  - exact (proj2 (proj2 (getTokenType_category (Tokenizer0 := word_tokenizer)
                           "word" (js "url") {| returned := []; unread := [] |}))
             eq_refl (or_introl eq_refl)).
Defined.

(** X14 on a text that is one word. *)
Lemma terminalHighlight_uncoloured_witness :
  result (terminalHighlight (Tokenizer0 := word_tokenizer) 2 (js "abc") 0) = inr (js "abc").
Proof.
  exact (terminalHighlight_uncoloured (Tokenizer0 := word_tokenizer) (js "abc") 0
           {| input_css := js "abc"; input_hasBOM := false; input_file := None;
              input_id := Some (js "<input css 1>"); input_map := None |}
           eq_refl eq_refl 2%nat (le_n 2)).
Defined.

(** X15 on the reference host, whose texts have no map: the counter
    advances even when the loop is given no iteration. *)
Lemma terminalHighlight_takes_identifier_witness :
  state (terminalHighlight (Tokenizer0 := word_tokenizer) 0 (js "abc") 5) = 6.
Proof.
  exact (proj2 (terminalHighlight_takes_identifier (Tokenizer0 := word_tokenizer) 0 (js "abc") 5)
           eq_refl).
Defined.
